(** * SARSA(lambda) with tile coding: the MountainCar-v0 notebook

    A shallow embedding of
    [MountainCar-v0/mountaincar_v0_sarsa_lambda_tilecode.ipynb]:
    [TileCoder] (the codebook and the layered codewords), [SARSAAgent]
    and [SARSALambdaAgent] (the weights [w], the eligibility traces [z],
    [encode], [get_q], [decide] and [learn]) and [play_sarsa].

    Conventions of the embedding.
    - Python [int]s are [Z].
    - The notebook's floats are modelled at two levels.  The numbers the
      agent learns with (weights, traces, estimates, targets) are exact
      rationals [Q], and vectors ([numpy] arrays of shape [(n,)]) are
      [list Q]: rationals have neither rounding nor [inf]/[nan], and the
      statements about the agent are about this exact arithmetic.  Where
      rounding or overflow decides what the program does (the tile a
      float falls in, [int()] raising on [inf] and [nan], the total of an
      episode) the computation is in IEEE 754 binary64, every operation
      rounded to nearest even as the hardware does: [Binary64], over the
      Standard Library's [SpecFloat], and [TileCoder64].
    - A tuple of ints that may also hold [None] (the default of
      [action_next]) is a [list (option Z)]: [Some n] is the int [n].
    - The codebook, a Python [dict] from codewords to ints, is a [gmap].
    - A method is a function from the object's state to a result and the
      state the call leaves behind; a raised exception keeps the
      mutations done before it, as in Python.
    - Python's [hash] and the numbers drawn from [np.random] are
      parameters: [hash] of the sections below, the draws of [decide].

    The cells that train, plot and save are outside the embedding. *)

From Stdlib Require Import ZArith QArith Qround Lia Lqa SpecFloat.
From stdpp Require Import base option list numbers gmap fin_maps.

(** ** Python values, exceptions and the method monad *)

Module Py.

Inductive exn : Set :=
| ZeroDivisionError
| IndexError
| ValueError
| OverflowError.

Inductive result (A : Type) : Type :=
| Ok (a : A)
| Raise (e : exn).
Arguments Ok {A} a.
Arguments Raise {A} e.

Definition result_bind {A B} (r : result A) (f : A -> result B) : result B :=
  match r with
  | Ok a => f a
  | Raise e => Raise e
  end.

#[export] Instance result_ret : MRet result := fun A a => Ok a.
#[export] Instance result_mbind : MBind result :=
  fun A B f r => result_bind r f.

(** A method of an object with state [S]. *)
Definition M (S A : Type) : Type := S -> result A * S.

Definition ret {S A} (a : A) : M S A := fun s => (Ok a, s).

Definition bind {S A B} (m : M S A) (f : A -> M S B) : M S B :=
  fun s =>
    match m s with
    | (Ok a, s') => f a s'
    | (Raise e, s') => (Raise e, s')
    end.

Definition raise {S A} (e : exn) : M S A := fun s => (Raise e, s).
Definition gets {S A} (f : S -> A) : M S A := fun s => (Ok (f s), s).
Definition modify {S} (f : S -> S) : M S unit := fun s => (Ok tt, f s).
Definition lift_result {S A} (r : result A) : M S A := fun s => (r, s).

(** An assignment to the object whose right-hand side may raise: nothing
    is written when it does. *)
Definition try_modify {S} (f : S -> result S) : M S unit :=
  fun s =>
    match f s with
    | Ok s' => (Ok tt, s')
    | Raise e => (Raise e, s)
    end.

(** Running a method of a component [T] of the object. *)
Definition zoom {S T A} (get : S -> T) (set : T -> S -> S) (m : M T A) : M S A :=
  fun s => let (r, t') := m (get s) in (r, set t' s).

#[export] Instance M_ret {S} : MRet (M S) := fun A => @ret S A.
#[export] Instance M_bind {S} : MBind (M S) := fun A B f m => @bind S A B m f.

(** Every run of [m], returning or raising, takes the state to one
    related to it by [R]. *)
Definition steps_by {S A} (R : S -> S -> Prop) (m : M S A) : Prop :=
  forall s, R s (snd (m s)).

(** A [for] loop that appends one result per element. *)
Fixpoint for_each {S A B} (f : A -> M S B) (l : list A) : M S (list B) :=
  match l with
  | [] => ret []
  | x :: l' => y ← f x; ys ← for_each f l'; ret (y :: ys)
  end.

(** [tuple(g(i, x) for i, x in enumerate(xs))], counting from [i]: the
    first element that raises ends it. *)
Fixpoint tuple_of {A B} (g : nat -> A -> result B) (i : nat) (xs : list A)
    : result (list B) :=
  match xs with
  | [] => Ok []
  | x :: xs' => y ← g i x; ys ← tuple_of g (S i) xs'; mret (y :: ys)
  end.

(** [range(n)]: empty when [n <= 0]. *)
Definition range (n : Z) : list Z := seqZ 0 n.

(** [int(x)] on a float of the exact level: truncation towards zero.
    There is no [inf] or [nan] here for it to raise on; [Binary64.int]
    has them. *)
Definition int (x : Q) : Z := Z.quot (Qnum x) (Z.pos (Qden x)).

(** [a % b] on ints: the result has the sign of [b]; [b = 0] raises. *)
Definition mod_ (a b : Z) : result Z :=
  if (b =? 0)%Z then Raise ZeroDivisionError else Ok (a `mod` b)%Z.

Definition Qltb (x y : Q) : bool := negb (Qle_bool y x).

End Py.

(** ** Floats as the machine has them *)

Module Binary64.
Import Py.

(** IEEE 754 binary64: 53 bits of precision, exponents below 1024.
    [S754_finite s m e] is [(-1)^s * m * 2^e]. *)
Definition float : Type := spec_float.
Definition prec : Z := 53.
Definition emax : Z := 1024.

(** The values of the format among those of [spec_float]. *)
Definition valid (x : float) : bool := valid_binary prec emax x.

Definition is_finite (x : float) : bool :=
  match x with
  | S754_zero _ | S754_finite _ _ _ => true
  | S754_infinity _ | S754_nan => false
  end.

(** A float that is not below zero: [nan] and both zeros included. *)
Definition not_negative (x : float) : Prop :=
  match x with
  | S754_finite s _ _ | S754_infinity s => s = false
  | S754_zero _ | S754_nan => True
  end.

(** A float whose sign bit is clear, or [nan]. *)
Definition sign_clear (x : float) : Prop :=
  match x with
  | S754_zero s | S754_finite s _ _ | S754_infinity s => s = false
  | S754_nan => True
  end.

Definition zero : float := S754_zero false.
Definition one : float := S754_finite false 4503599627370496 (-52).

(** [x + y], [x * y] and [x / y], rounded. *)
Definition add : float -> float -> float := SFadd prec emax.
Definition mul : float -> float -> float := SFmul prec emax.
Definition div : float -> float -> float := SFdiv prec emax.

(** [x <= y]: false as soon as one of them is [nan]. *)
Definition leb : float -> float -> bool := SFleb.

(** The float nearest to an int, [inf] beyond the largest float. *)
Definition of_Z (n : Z) : float := binary_normalize prec emax n 0 false.

(** The conversion of an int that meets a float in [+], [*] or [/]: an
    int too large for a float raises. *)
Definition of_int (n : Z) : result float :=
  match of_Z n with
  | S754_infinity _ => Raise OverflowError
  | x => Ok x
  end.

(** [int(x)]: truncation towards zero; [inf] and [nan] raise. *)
Definition int (x : float) : result Z :=
  match x with
  | S754_zero _ => Ok 0%Z
  | S754_finite s m e => Ok (cond_Zopp s (Z.shiftl (Z.pos m) e))
  | S754_infinity _ => Raise OverflowError
  | S754_nan => Raise ValueError
  end.

(** The rational a finite float stands for (0 for the others). *)
Definition to_Q (x : float) : Q :=
  match x with
  | S754_finite s m e =>
      match e with
      | Z.neg p => Qmake (cond_Zopp s (Z.pos m)) (2 ^ p)
      | _ => inject_Z (cond_Zopp s (Z.pos m) * 2 ^ e)
      end
  | _ => 0%Q
  end.

Definition floor (x : float) : Z := Qfloor (to_Q x).

End Binary64.

(** ** The part of numpy the notebook uses *)

Module Np.
Import Py.

(** [np.zeros(n)]: a negative shape raises. *)
Definition zeros (n : Z) : result (list Q) :=
  if (n <? 0)%Z then Raise ValueError else Ok (replicate (Z.to_nat n) 0%Q).

Definition zeros_like (a : list Q) : list Q := replicate (length a) 0%Q.

(** An elementwise binary operation on two arrays of shape [(n,)] and
    [(m,)]: equal lengths pair up, a length of one broadcasts, anything
    else raises. *)
Definition broadcast (f : Q -> Q -> Q) (xs ys : list Q) : result (list Q) :=
  if (length xs =? length ys)%nat then Ok (zip_with f xs ys)
  else match xs, ys with
       | [x], _ => Ok (map (f x) ys)
       | _, [y] => Ok (map (fun x => f x y) xs)
       | _, _ => Raise ValueError
       end.

Definition subtract := broadcast Qminus.
Definition divide := broadcast Qdiv.

(** [a += b] and [a *= s]: in place, so the result has the shape of [a]
    and only [b] may broadcast. *)
Definition iadd (a b : list Q) : result (list Q) :=
  if (length a =? length b)%nat then Ok (zip_with Qplus a b)
  else match b with
       | [y] => Ok (map (fun x => x + y)%Q a)
       | _ => Raise ValueError
       end.

Definition imul (a : list Q) (s : Q) : list Q := map (fun x => x * s)%Q a.

(** [s * a] for a scalar [s]. *)
Definition scale (s : Q) (a : list Q) : list Q := map (fun x => s * x)%Q a.

(** An index into an axis of length [n]: negative ones count from the
    end, the others out of range raise. *)
Definition index (n : nat) (i : Z) : result nat :=
  if ((0 <=? i) && (i <? Z.of_nat n))%Z then Ok (Z.to_nat i)
  else if ((- Z.of_nat n <=? i) && (i <? 0))%Z then Ok (Z.to_nat (i + Z.of_nat n))
  else Raise IndexError.

Fixpoint indices (n : nat) (idx : list Z) : result (list nat) :=
  match idx with
  | [] => Ok []
  | i :: idx' =>
      result_bind (index n i) (fun k =>
      result_bind (indices n idx') (fun ks => Ok (k :: ks)))
  end.

(** [a[idx]] for a list of ints [idx]. *)
Definition take (a : list Q) (idx : list Z) : result (list Q) :=
  result_bind (indices (length a) idx) (fun ks =>
  Ok (map (fun k => nth k a 0%Q) ks)).

(** [a[idx] = v] for a list of ints [idx]: every index is checked before
    anything is written. *)
Definition put (a : list Q) (idx : list Z) (v : Q) : result (list Q) :=
  result_bind (indices (length a) idx) (fun ks =>
  Ok (foldl (fun b k => <[k := v]> b) a ks)).

(** [a[idx] += c] for a list of ints [idx]: the sums are taken from the
    array as it was, then written, so that an index listed twice is
    raised once. *)
Definition iadd_at (a : list Q) (idx : list Z) (c : Q) : result (list Q) :=
  result_bind (indices (length a) idx) (fun ks =>
  Ok (foldl (fun b k => <[k := (nth k a 0 + c)%Q]> b) a ks)).

(** [a.sum()]. *)
Definition sum (a : list Q) : Q := foldl Qplus 0%Q a.

Fixpoint argmax_from (best_i : Z) (best : Q) (i : Z) (l : list Q) : Z :=
  match l with
  | [] => best_i
  | x :: l' =>
      if Qltb best x then argmax_from i x (i + 1)%Z l'
      else argmax_from best_i best (i + 1)%Z l'
  end.

(** [np.random.randint(n)]: [draw] is the number the generator yields. *)
Definition randint (draw n : Z) : result Z :=
  if (n <=? 0)%Z then Raise ValueError else Ok draw.

(** Modelled from the spec: [np.argmax] belongs to numpy, not to the
    notebook.  It returns the index of the first maximum ("ties broken by
    first-encountered maximum (lowest action index)") and raises on an
    empty sequence. *)
Definition argmax (l : list Q) : result Z :=
  match l with
  | [] => Raise ValueError
  | x :: l' => Ok (argmax_from 0 x 1 l')
  end.

End Np.

(** ** class TileCoder *)

Module TileCoder.
Import Py.

Record t : Type := Build {
  layers : Z;
  features : Z;
  codebook : gmap (list (option Z)) Z
}.

Definition set_codebook (c : gmap (list (option Z)) Z) (self : t) : t :=
  {| layers := layers self; features := features self; codebook := c |}.

Definition __init__ (layers features : Z) : t :=
  {| layers := layers; features := features; codebook := ∅ |}.

Section WithHash.

(** Python's builtin [hash] on tuples. *)
Variable hash : list (option Z) -> Z.

Definition get_feature (codeword : list (option Z)) : M t Z := fun self =>
  match codebook self !! codeword with
  | Some i => (Ok i, self)
  | None =>
      let count := Z.of_nat (size (codebook self)) in
      if (count >=? features self)%Z
      then (mod_ (hash codeword) (features self), self)
      else (Ok count, set_codebook (<[codeword := count]> (codebook self)) self)
  end.

(** The codeword of one layer, from the scaled floats, at the exact
    level: nothing is rounded here ([TileCoder64.codeword_of] rounds). *)
Definition codeword_of (self_layers dim : Z) (scaled_floats : list Q)
    (ints : list (option Z)) (layer : Z) : list (option Z) :=
  (Some layer ::
   imap (fun i f =>
           Some (int ((f + inject_Z ((1 + dim * Z.of_nat i) * layer))
                      / inject_Z self_layers)))
        scaled_floats) ++ ints.

Definition __call__ (floats : list Q) (ints : list (option Z)) : M t (list Z) :=
  self_layers ← gets layers;
  let dim := Z.of_nat (length floats) in
  let scaled_floats :=
    map (fun f => f * inject_Z self_layers * inject_Z self_layers)%Q floats in
  for_each (fun layer =>
              get_feature (codeword_of self_layers dim scaled_floats ints layer))
           (range self_layers).

End WithHash.
End TileCoder.

(** ** TileCoder.__call__ on binary64 floats

    The same method with the arithmetic of the machine: [floats] are
    binary64 numbers, the ints they meet are converted, every [*], [+]
    and [/] rounds, and [int()] raises on what is not finite.  The table
    and [get_feature] are those of [TileCoder]. *)

Module TileCoder64.
Import Py.

Section WithHash.
Variable hash : list (option Z) -> Z.

(** [f * self.layers * self.layers]. *)
Definition scaled (self_layers : Z) (f : Binary64.float) : result Binary64.float :=
  n ← Binary64.of_int self_layers;
  let f1 := Binary64.mul f n in
  n ← Binary64.of_int self_layers;
  mret (Binary64.mul f1 n).

(** [int((f + (1 + dim * i) * layer) / self.layers)]. *)
Definition cell (self_layers dim layer : Z) (i : nat) (f : Binary64.float)
    : result Z :=
  k ← Binary64.of_int ((1 + dim * Z.of_nat i) * layer);
  let x := Binary64.add f k in
  n ← Binary64.of_int self_layers;
  Binary64.int (Binary64.div x n).

(** The codeword of one layer, from the scaled floats. *)
Definition codeword_of (self_layers dim : Z) (scaled_floats : list Binary64.float)
    (ints : list (option Z)) (layer : Z) : result (list (option Z)) :=
  cells ← tuple_of (cell self_layers dim layer) 0 scaled_floats;
  mret ((Some layer :: map Some cells) ++ ints).

Definition __call__ (floats : list Binary64.float) (ints : list (option Z))
    : M TileCoder.t (list Z) :=
  self_layers ← gets TileCoder.layers;
  let dim := Z.of_nat (length floats) in
  scaled_floats ← lift_result (tuple_of (fun _ f => scaled self_layers f) 0 floats);
  for_each (fun layer =>
              codeword ← lift_result
                           (codeword_of self_layers dim scaled_floats ints layer);
              TileCoder.get_feature hash codeword)
           (range self_layers).

End WithHash.
End TileCoder64.

(** ** The environment, as far as the agent reads it *)

Module Env.
Record t : Type := Build {
  action_space_n : Z;
  observation_space_low : list Q;
  observation_space_high : list Q
}.
End Env.

(** ** class SARSAAgent *)

Module SARSAAgent.
Import Py.

Record t : Type := Build {
  action_n : Z;
  obs_low : list Q;
  obs_scale : list Q;
  encoder : TileCoder.t;
  w : list Q;
  gamma : Q;
  learning_rate : Q;
  epsilon : Q
}.

Definition set_encoder (e : TileCoder.t) (self : t) : t :=
  {| action_n := action_n self; obs_low := obs_low self;
     obs_scale := obs_scale self; encoder := e; w := w self;
     gamma := gamma self; learning_rate := learning_rate self;
     epsilon := epsilon self |}.

Definition set_w (v : list Q) (self : t) : t :=
  {| action_n := action_n self; obs_low := obs_low self;
     obs_scale := obs_scale self; encoder := encoder self; w := v;
     gamma := gamma self; learning_rate := learning_rate self;
     epsilon := epsilon self |}.

Definition set_epsilon (e : Q) (self : t) : t :=
  {| action_n := action_n self; obs_low := obs_low self;
     obs_scale := obs_scale self; encoder := encoder self; w := w self;
     gamma := gamma self; learning_rate := learning_rate self;
     epsilon := e |}.

Definition __init__ (env : Env.t) (layers features : Z)
    (gamma learning_rate epsilon : Q) : result t :=
  scale ← Np.subtract (Env.observation_space_high env)
                      (Env.observation_space_low env);
  zs ← Np.zeros features;
  mret {| action_n := Env.action_space_n env;
          obs_low := Env.observation_space_low env;
          obs_scale := scale;
          encoder := TileCoder.__init__ layers features;
          w := zs;
          gamma := gamma; learning_rate := learning_rate;
          epsilon := epsilon |}.

Section WithHash.
Variable hash : list (option Z) -> Z.

Definition encode (observation : list Q) (action : option Z) : M t (list Z) :=
  low ← gets obs_low;
  scale ← gets obs_scale;
  shifted ← lift_result (Np.subtract observation low);
  states ← lift_result (Np.divide shifted scale);
  let actions := [action] in
  zoom encoder set_encoder (TileCoder.__call__ hash states actions).

Definition get_q (observation : list Q) (action : option Z) : M t Q :=
  features ← encode observation action;
  self_w ← gets w;
  picked ← lift_result (Np.take self_w features);
  mret (Np.sum picked).

(** [rand] is what [np.random.rand()] yields, a number of [[0, 1)], and
    [draw] what the generator gives to [np.random.randint]. *)
Definition decide (rand : Q) (draw : Z) (observation : list Q) : M t Z :=
  eps ← gets epsilon;
  if Qltb rand eps then
    n ← gets action_n;
    lift_result (Np.randint draw n)
  else
    n ← gets action_n;
    qs ← for_each (fun action => get_q observation (Some action)) (range n);
    lift_result (Np.argmax qs).

Definition learn (observation : list Q) (action : option Z) (reward : Q)
    (observation_next : list Q) (done : bool) (action_next : option Z)
    : M t unit :=
  u ← (if negb done then
         g ← gets gamma;
         q_next ← get_q observation_next action_next;
         mret (reward + g * q_next)%Q
       else mret reward);
  q ← get_q observation action;
  let delta := (u - q)%Q in
  features ← encode observation action;
  try_modify (fun self =>
                w' ← Np.iadd_at (w self) features (learning_rate self * delta)%Q;
                mret (set_w w' self)).

End WithHash.
End SARSAAgent.

(** ** class SARSALambdaAgent(SARSAAgent) *)

Module SARSALambdaAgent.
Import Py.

Record t : Type := Build {
  super : SARSAAgent.t;
  lambd : Q;
  z : list Q
}.

Definition set_super (b : SARSAAgent.t) (self : t) : t :=
  {| super := b; lambd := lambd self; z := z self |}.

Definition set_z (v : list Q) (self : t) : t :=
  {| super := super self; lambd := lambd self; z := v |}.

Definition w (self : t) : list Q := SARSAAgent.w (super self).
Definition gamma (self : t) : Q := SARSAAgent.gamma (super self).
Definition learning_rate (self : t) : Q := SARSAAgent.learning_rate (super self).
Definition epsilon (self : t) : Q := SARSAAgent.epsilon (super self).
Definition action_n (self : t) : Z := SARSAAgent.action_n (super self).
Definition encoder (self : t) : TileCoder.t := SARSAAgent.encoder (super self).

Definition set_w (v : list Q) (self : t) : t :=
  set_super (SARSAAgent.set_w v (super self)) self.

Definition set_epsilon (e : Q) (self : t) : t :=
  set_super (SARSAAgent.set_epsilon e (super self)) self.

Definition __init__ (env : Env.t) (layers features : Z)
    (gamma learning_rate epsilon lambd : Q) : result t :=
  b ← SARSAAgent.__init__ env layers features gamma learning_rate epsilon;
  zs ← Np.zeros features;
  mret {| super := b; lambd := lambd; z := zs |}.

Section WithHash.
Variable hash : list (option Z) -> Z.

(** The inherited methods. *)
Definition encode (observation : list Q) (action : option Z) : M t (list Z) :=
  zoom super set_super (SARSAAgent.encode hash observation action).

Definition get_q (observation : list Q) (action : option Z) : M t Q :=
  zoom super set_super (SARSAAgent.get_q hash observation action).

Definition decide (rand : Q) (draw : Z) (observation : list Q) : M t Z :=
  zoom super set_super (SARSAAgent.decide hash rand draw observation).

Definition learn (observation : list Q) (action : option Z) (reward : Q)
    (observation_next : list Q) (done : bool) (action_next : option Z)
    : M t unit :=
  u ← (if negb done then
         g ← gets gamma;
         q_next ← get_q observation_next action_next;
         let u := (reward + g * q_next)%Q in
         modify (fun self =>
                   set_z (Np.imul (z self) (gamma self * lambd self)%Q) self);;
         features ← encode observation action;
         try_modify (fun self =>
                       z' ← Np.put (z self) features 1%Q;
                       mret (set_z z' self));;
         mret u
       else mret reward);
  q ← get_q observation action;
  let delta := (u - q)%Q in
  try_modify (fun self =>
                w' ← Np.iadd (w self)
                             (Np.scale (learning_rate self * delta)%Q (z self));
                mret (set_w w' self));;
  if done then
    modify (fun self => set_z (Np.zeros_like (z self)) self)
  else mret tt.

End WithHash.
End SARSALambdaAgent.

(** ** play_sarsa *)

Module Notebook.
Import Py.

Section PlaySarsa.
Variable hash : list (option Z) -> Z.

(** The environment: its state, [env.reset()] and [env.step(action)],
    the latter without the [info] it returns. *)
Variable E : Type.
Variable env_reset : E -> list Q * E.
Variable env_step : Z -> E -> (list Q * Binary64.float * bool) * E.

(** What the generator yields to the [k]-th call of [decide]. *)
Variable rng : nat -> Q * Z.

(** What [play_sarsa] works on: the agent, the environment and the
    number of decisions taken so far. *)
Record world : Type := World {
  agent : SARSALambdaAgent.t;
  env : E;
  decisions : nat
}.

Definition set_agent (a : SARSALambdaAgent.t) (wd : world) : world :=
  {| agent := a; env := env wd; decisions := decisions wd |}.

Definition set_env (e : E) (wd : world) : world :=
  {| agent := agent wd; env := e; decisions := decisions wd |}.

Definition set_decisions (k : nat) (wd : world) : world :=
  {| agent := agent wd; env := env wd; decisions := k |}.

Definition reset : M world (list Q) := fun wd =>
  let (observation, e) := env_reset (env wd) in (Ok observation, set_env e wd).

Definition step (action : Z) : M world (list Q * Binary64.float * bool) := fun wd =>
  let (r, e) := env_step action (env wd) in (Ok r, set_env e wd).

Definition decide (observation : list Q) : M world Z := fun wd =>
  let (rand, draw) := rng (decisions wd) in
  zoom agent set_agent (SARSALambdaAgent.decide hash rand draw observation)
       (set_decisions (S (decisions wd)) wd).

Definition learn (observation : list Q) (action : Z) (reward : Q)
    (observation_next : list Q) (done : bool) (action_next : option Z)
    : M world unit :=
  zoom agent set_agent
    (SARSALambdaAgent.learn hash observation (Some action) reward
       observation_next done action_next).

(** The [while True] loop, run for at most [fuel] steps of the
    environment: [None] when they do not reach its [break].  The total
    is summed as the machine does; the agent, which is at the exact
    level, learns from the value of the reward. *)
Fixpoint loop (fuel : nat) (train : bool) (observation : list Q) (action : Z)
    (episode_reward : Binary64.float) : M world (option Binary64.float) :=
  match fuel with
  | O => mret None
  | S fuel' =>
      r ← step action;
      let observation_next : list Q := r.1.1 in
      let reward : Binary64.float := r.1.2 in
      let done : bool := r.2 in
      let episode_reward := Binary64.add episode_reward reward in
      if done then
        (if train then
           learn observation action (Binary64.to_Q reward) observation_next
                 done None
         else (mret tt : M world unit));;
        mret (Some episode_reward)
      else
        action_next ← decide observation_next;
        (if train then
           learn observation action (Binary64.to_Q reward) observation_next
                 done (Some action_next)
         else (mret tt : M world unit));;
        loop fuel' train observation_next action_next episode_reward
  end.

(** [render] only draws the environment. *)
Definition play_sarsa (fuel : nat) (train render : bool)
    : M world (option Binary64.float) :=
  let episode_reward := Binary64.of_Z 0 in
  observation ← reset;
  action ← decide observation;
  loop fuel train observation action episode_reward.

End PlaySarsa.
End Notebook.

(** ** Vocabulary of the statements *)

Module Spec.
Import Py.

(** Number of entries of the codebook, [len(self.codebook)]. *)
Definition tc_size (tc : TileCoder.t) : Z :=
  Z.of_nat (size (TileCoder.codebook tc)).

(** The codeword of layer [l] as the specification words it: the layer,
    one floored coordinate per continuous value scaled by [layers]
    squared, then the discrete inputs. *)
Definition spec_codeword (layers : Z) (floats : list Q)
    (ints : list (option Z)) (l : Z) : list (option Z) :=
  let dim := Z.of_nat (length floats) in
  Some l ::
  imap (fun i x =>
          Some (Qfloor ((x * inject_Z (layers * layers)
                         + inject_Z ((1 + dim * Z.of_nat i) * l))
                        / inject_Z layers)))
       floats
  ++ ints.

(** A binary64 number of [[0, 1]]. *)
Definition unit_float (f : Binary64.float) : Prop :=
  Binary64.valid f = true /\
  Binary64.leb Binary64.zero f = true /\ Binary64.leb f Binary64.one = true.

(** The coordinate of the float [f] at position [i] in layer [l], as
    binary64 has it: [f] times [layers] twice, the offset
    [(1 + dim*i) * l] added, the sum divided by [layers], each of the
    four results rounded. *)
Definition cell64 (layers dim : Z) (i : nat) (f : Binary64.float) (l : Z)
    : Binary64.float :=
  let n := Binary64.of_Z layers in
  Binary64.div
    (Binary64.add (Binary64.mul (Binary64.mul f n) n)
                  (Binary64.of_Z ((1 + dim * Z.of_nat i) * l)))
    n.

(** The codeword of layer [l] with floored binary64 coordinates. *)
Definition codeword64 (layers : Z) (floats : list Binary64.float)
    (ints : list (option Z)) (l : Z) : list (option Z) :=
  let dim := Z.of_nat (length floats) in
  Some l ::
  imap (fun i f => Some (Binary64.floor (cell64 layers dim i f l))) floats
  ++ ints.

(** What the codebook of a coder guarantees between calls. *)
Record tc_inv (tc : TileCoder.t) : Prop := {
  tc_inv_size : (tc_size tc <= TileCoder.features tc)%Z;
  tc_inv_range : forall cw i,
    TileCoder.codebook tc !! cw = Some i -> (0 <= i < tc_size tc)%Z;
  tc_inv_inj : forall cw1 cw2 i,
    TileCoder.codebook tc !! cw1 = Some i ->
    TileCoder.codebook tc !! cw2 = Some i -> cw1 = cw2
}.

(** [tc'] extends [tc]: same parameters, every entry kept, and nothing
    added to a full codebook. *)
Record tc_ext (tc tc' : TileCoder.t) : Prop := {
  tc_ext_layers : TileCoder.layers tc' = TileCoder.layers tc;
  tc_ext_features : TileCoder.features tc' = TileCoder.features tc;
  tc_ext_codebook : TileCoder.codebook tc ⊆ TileCoder.codebook tc';
  tc_ext_full :
    (TileCoder.features tc <= tc_size tc)%Z ->
    TileCoder.codebook tc' = TileCoder.codebook tc
}.


Section WithHash.
Variable hash : list (option Z) -> Z.

(** [get_feature] has resolved [cw] to [k] in a coder that is now [tc]:
    the table holds the pair, or it is full without [cw] and [k] is the
    hash of [cw] folded into the table. *)
Definition resolved (tc : TileCoder.t) (cw : list (option Z)) (k : Z) : Prop :=
  TileCoder.codebook tc !! cw = Some k \/
  (TileCoder.codebook tc !! cw = None /\
   (TileCoder.features tc <= tc_size tc)%Z /\
   mod_ (hash cw) (TileCoder.features tc) = Ok k).

(** The coder after any number of [get_feature] and [__call__] calls. *)
Inductive tc_steps (tc : TileCoder.t) : TileCoder.t -> Prop :=
| tc_steps_refl : tc_steps tc tc
| tc_steps_get_feature tc' cw :
    tc_steps tc tc' ->
    tc_steps tc (snd (TileCoder.get_feature hash cw tc'))
| tc_steps_call tc' floats ints :
    tc_steps tc tc' ->
    tc_steps tc (snd (TileCoder.__call__ hash floats ints tc')).

Definition tc_reachable (layers features : Z) (tc : TileCoder.t) : Prop :=
  tc_steps (TileCoder.__init__ layers features) tc.

(** The calls a training loop makes on an agent, and the agent after a
    call (returned or raised) and after a sequence of calls. *)
Inductive agent_call : Type :=
| Learn (observation : list Q) (action : option Z) (reward : Q)
        (observation_next : list Q) (done : bool) (action_next : option Z)
| Decide (rand : Q) (draw : Z) (observation : list Q)
| GetQ (observation : list Q) (action : option Z)
| Encode (observation : list Q) (action : option Z)
| SetEpsilon (e : Q).

Definition after (c : agent_call) (s : SARSALambdaAgent.t) : SARSALambdaAgent.t :=
  match c with
  | Learn o a r o' d a' => snd (SARSALambdaAgent.learn hash o a r o' d a' s)
  | Decide u k o => snd (SARSALambdaAgent.decide hash u k o s)
  | GetQ o a => snd (SARSALambdaAgent.get_q hash o a s)
  | Encode o a => snd (SARSALambdaAgent.encode hash o a s)
  | SetEpsilon e => SARSALambdaAgent.set_epsilon e s
  end.

Definition run (cs : list agent_call) (s : SARSALambdaAgent.t) : SARSALambdaAgent.t :=
  foldl (fun s c => after c s) s cs.

End WithHash.

(** Entries added after [tc] get indices from [tc]'s size on. *)
Definition later_entries (tc tc' : TileCoder.t) : Prop :=
  tc_ext tc tc' /\
  forall cw i, TileCoder.codebook tc' !! cw = Some i ->
               TileCoder.codebook tc !! cw = None -> (tc_size tc <= i)%Z.

(** An environment with as many lower as upper bounds, the upper ones
    strictly above. *)
Definition env_ok (env : Env.t) : Prop :=
  Forall2 Qlt (Env.observation_space_low env) (Env.observation_space_high env).

(** The normalised observation that [encode] passes to the coder. *)
Definition normalize (b : SARSAAgent.t) (observation : list Q) : list Q :=
  zip_with Qdiv (zip_with Qminus observation (SARSAAgent.obs_low b))
           (SARSAAgent.obs_scale b).

(** The sum of the weights at the given indices. *)
Definition q_value (w : list Q) (feats : list Z) : Q :=
  Np.sum (map (fun i => nth (Z.to_nat i) w 0%Q) feats).

(** What holds of an agent between calls: a sound codebook of positive
    capacity, one weight and one trace per slot, and a nonzero scale for
    each observation bound (numpy divides by a zero scale into [inf] or
    [nan], which the rationals do not have). *)
Record agent_wf (s : SARSALambdaAgent.t) : Prop := {
  wf_encoder : tc_inv (SARSALambdaAgent.encoder s);
  wf_features : (0 < TileCoder.features (SARSALambdaAgent.encoder s))%Z;
  wf_w : Z.of_nat (length (SARSALambdaAgent.w s))
         = TileCoder.features (SARSALambdaAgent.encoder s);
  wf_z : length (SARSALambdaAgent.z s) = length (SARSALambdaAgent.w s);
  wf_obs : length (SARSAAgent.obs_scale (SARSALambdaAgent.super s))
           = length (SARSAAgent.obs_low (SARSALambdaAgent.super s));
  wf_scale : Forall (fun x => ~ x == 0)
                    (SARSAAgent.obs_scale (SARSALambdaAgent.super s))
}.

(** What a call of an inherited method may change of the base object:
    the coder only, and that by extension. *)
Record base_frame (b b' : SARSAAgent.t) : Prop := {
  base_frame_eq : b' = SARSAAgent.set_encoder (SARSAAgent.encoder b') b;
  base_frame_ext : tc_ext (SARSAAgent.encoder b) (SARSAAgent.encoder b');
  base_frame_inv : tc_inv (SARSAAgent.encoder b) -> tc_inv (SARSAAgent.encoder b')
}.

(** The agent with the coder replaced. *)
Definition with_encoder (tc : TileCoder.t) (s : SARSALambdaAgent.t)
    : SARSALambdaAgent.t :=
  SARSALambdaAgent.set_super
    (SARSAAgent.set_encoder tc (SARSALambdaAgent.super s)) s.

(** What a call may change of the agent: never [gamma] or [lambd]; the
    agent stays well formed; and a property of numbers that holds of 0
    and 1 and survives the decay holds of every trace after the call if
    it did before. *)
Record agent_step (s s' : SARSALambdaAgent.t) : Prop := {
  step_lambd : SARSALambdaAgent.lambd s' = SARSALambdaAgent.lambd s;
  step_gamma : SARSALambdaAgent.gamma s' = SARSALambdaAgent.gamma s;
  step_wf : agent_wf s -> agent_wf s';
  step_traces : forall P : Q -> Prop,
    P 0%Q -> P 1%Q ->
    (forall x, P x ->
               P (x * (SARSALambdaAgent.gamma s * SARSALambdaAgent.lambd s))%Q) ->
    Forall P (SARSALambdaAgent.z s) -> Forall P (SARSALambdaAgent.z s')
}.

(** The shape an observation must have for this agent. *)
Definition obs_ok (s : SARSALambdaAgent.t) (observation : list Q) : Prop :=
  length observation = length (SARSAAgent.obs_low (SARSALambdaAgent.super s)).

(** A hash function to run examples with. *)
Definition sample_hash (cw : list (option Z)) : Z :=
  foldr (fun o acc => (default 7 o + 31 * acc)%Z) 0%Z cw.

(** MountainCar-v0 as the agent sees it, and a small agent on it: two
    layers, ten features, the notebook's other defaults. *)
Definition sample_env : Env.t :=
  {| Env.action_space_n := 3;
     Env.observation_space_low := [(-12 # 10)%Q; (-7 # 100)%Q];
     Env.observation_space_high := [(6 # 10)%Q; (7 # 100)%Q] |}.

Definition sample_agent : SARSALambdaAgent.t :=
  {| SARSALambdaAgent.super :=
       {| SARSAAgent.action_n := 3;
          SARSAAgent.obs_low := [(-12 # 10)%Q; (-7 # 100)%Q];
          SARSAAgent.obs_scale :=
            [((6 # 10) - (-12 # 10))%Q; ((7 # 100) - (-7 # 100))%Q];
          SARSAAgent.encoder := TileCoder.__init__ 2 10;
          SARSAAgent.w := replicate 10 0%Q;
          SARSAAgent.gamma := 1%Q;
          SARSAAgent.learning_rate := (3 # 100)%Q;
          SARSAAgent.epsilon := (1 # 1000)%Q |};
     SARSALambdaAgent.lambd := (9 # 10)%Q;
     SARSALambdaAgent.z := replicate 10 0%Q |}.

(** Two observations and two updates with them. *)
Definition sample_obs : list Q := [(-5 # 10)%Q; 0%Q].
Definition sample_obs_next : list Q := [(-4 # 10)%Q; (1 # 100)%Q].

Definition sample_calls : list agent_call :=
  [Learn sample_obs (Some 1%Z) (-1)%Q sample_obs_next false (Some 2%Z);
   Learn sample_obs_next (Some 2%Z) (-1)%Q sample_obs false (Some 0%Z)].

(** 0.24999999999999997, the float just below a quarter. *)
Definition sample_float : Binary64.float :=
  S754_finite false 9007199254740991 (-55).

(** 0.5555555555555555, the float just below five ninths. *)
Definition sample_float_ninths : Binary64.float :=
  S754_finite false 5003999585967217 (-53).

(** A coder with a single slot, after a call that fills it. *)
Definition sample_full_coder : TileCoder.t :=
  snd (TileCoder.__call__ sample_hash [0%Q] [Some 0%Z] (TileCoder.__init__ 2 1)).

End Spec.

(** ** Vocabulary of the further statements *)

Module Props.
Import Py Spec.

(** What holds of a base agent between calls. *)
Record base_wf (b : SARSAAgent.t) : Prop := {
  base_wf_encoder : tc_inv (SARSAAgent.encoder b);
  base_wf_features : (0 < TileCoder.features (SARSAAgent.encoder b))%Z;
  base_wf_w : Z.of_nat (length (SARSAAgent.w b))
              = TileCoder.features (SARSAAgent.encoder b);
  base_wf_obs : length (SARSAAgent.obs_scale b) = length (SARSAAgent.obs_low b);
  base_wf_scale : Forall (fun x => ~ x == 0) (SARSAAgent.obs_scale b)
}.

(** The exceptions of [int()] and of the conversion of an int to a
    float. *)
Definition float_error (e : exn) : Prop := e = OverflowError \/ e = ValueError.

(** A call that only reads the agent: nothing but the coder differs
    afterwards, and the coder is extended. *)
Definition agent_reads (s s' : SARSALambdaAgent.t) : Prop :=
  s' = with_encoder (SARSALambdaAgent.encoder s') s /\
  tc_ext (SARSALambdaAgent.encoder s) (SARSALambdaAgent.encoder s').

(** What no method changes: the configuration and the sizes of the
    arrays; and the coder is only extended. *)
Record agent_keeps (s s' : SARSALambdaAgent.t) : Prop := {
  keeps_action_n : SARSALambdaAgent.action_n s' = SARSALambdaAgent.action_n s;
  keeps_obs_low : SARSAAgent.obs_low (SARSALambdaAgent.super s')
                  = SARSAAgent.obs_low (SARSALambdaAgent.super s);
  keeps_obs_scale : SARSAAgent.obs_scale (SARSALambdaAgent.super s')
                    = SARSAAgent.obs_scale (SARSALambdaAgent.super s);
  keeps_gamma : SARSALambdaAgent.gamma s' = SARSALambdaAgent.gamma s;
  keeps_learning_rate : SARSALambdaAgent.learning_rate s'
                        = SARSALambdaAgent.learning_rate s;
  keeps_epsilon : SARSALambdaAgent.epsilon s' = SARSALambdaAgent.epsilon s;
  keeps_lambd : SARSALambdaAgent.lambd s' = SARSALambdaAgent.lambd s;
  keeps_w : length (SARSALambdaAgent.w s') = length (SARSALambdaAgent.w s);
  keeps_z : length (SARSALambdaAgent.z s') = length (SARSALambdaAgent.z s);
  keeps_encoder : tc_ext (SARSALambdaAgent.encoder s) (SARSALambdaAgent.encoder s')
}.

Section Environment.
Context {E : Type}.
Variable env_step : Z -> E -> (list Q * Binary64.float * bool) * E.

(** Episodes are limited: [limit] bounds the steps left, and goes down
    with every step that does not end the episode. *)
Definition env_limited (limit : E -> nat) : Prop :=
  forall a e, (env_step a e).1.2 = false ->
              (limit (env_step a e).2 < limit e)%nat.

End Environment.

(** The sample agent with no action to choose from, and with [lambd = 0]. *)
Definition sample_agent_no_actions : SARSALambdaAgent.t :=
  {| SARSALambdaAgent.super :=
       {| SARSAAgent.action_n := 0;
          SARSAAgent.obs_low := SARSAAgent.obs_low (SARSALambdaAgent.super sample_agent);
          SARSAAgent.obs_scale :=
            SARSAAgent.obs_scale (SARSALambdaAgent.super sample_agent);
          SARSAAgent.encoder := TileCoder.__init__ 2 10;
          SARSAAgent.w := replicate 10 0%Q;
          SARSAAgent.gamma := 1%Q;
          SARSAAgent.learning_rate := (3 # 100)%Q;
          SARSAAgent.epsilon := (1 # 1000)%Q |};
     SARSALambdaAgent.lambd := (9 # 10)%Q;
     SARSALambdaAgent.z := replicate 10 0%Q |}.

Definition sample_agent_plain : SARSALambdaAgent.t :=
  {| SARSALambdaAgent.super := SARSALambdaAgent.super sample_agent;
     SARSALambdaAgent.lambd := 0%Q;
     SARSALambdaAgent.z := replicate 10 0%Q |}.

(** An environment to run examples with: a clock that ends the episode
    when it reaches zero, every step costing 1. *)
Definition sample_reset (e : nat) : list Q * nat := (sample_obs, 3%nat).

Definition sample_step (action : Z) (e : nat)
    : (list Q * Binary64.float * bool) * nat :=
  ((sample_obs_next, S754_finite true 4503599627370496 (-52),
    bool_decide (e <= 1)%nat), pred e).

Definition sample_rng (k : nat) : Q * Z := ((1 # 2)%Q, 0%Z).

Definition sample_world : Notebook.world nat :=
  {| Notebook.agent := sample_agent; Notebook.env := 0%nat;
     Notebook.decisions := 0%nat |}.

End Props.

(** * Proofs *)

Import Py Spec.

Ltac munfold :=
  unfold mbind, mret, M_bind, M_ret, result_mbind, result_ret, bind, ret,
    gets, modify, lift_result, zoom, raise in *.

(** ** The method monad *)

Section ForEach.
Context {S A B : Type} (f : A -> M S B).

Lemma for_each_cons x l s :
  for_each f (x :: l) s =
  match f x s with
  | (Ok y, s1) =>
      match for_each f l s1 with
      | (Ok ys, s2) => (Ok (y :: ys), s2)
      | (Raise e, s2) => (Raise e, s2)
      end
  | (Raise e, s1) => (Raise e, s1)
  end.
Proof.
  simpl. munfold. destruct (f x s) as [[y|e] s1]; [|done].
  destruct (for_each f l s1) as [[ys|e] s2]; done.
Qed.

Lemma for_each_state (R : S -> S -> Prop) l s :
  (forall s, R s s) ->
  (forall s1 s2 s3, R s1 s2 -> R s2 s3 -> R s1 s3) ->
  (forall x s, R s (snd (f x s))) ->
  R s (snd (for_each f l s)).
Proof.
  intros Hrefl Htrans Hstep. revert s.
  induction l as [|x l IH]; intros s; [apply Hrefl|].
  rewrite for_each_cons.
  pose proof (Hstep x s) as H1. destruct (f x s) as [[y|e] s1]; simpl in *; [|done].
  pose proof (IH s1) as H2. destruct (for_each f l s1) as [[ys|e] s2]; simpl in *; eauto.
Qed.

Lemma for_each_total (P : S -> Prop) (Q : B -> Prop) l s :
  (forall x s, x ∈ l -> P s -> exists y, fst (f x s) = Ok y /\ Q y /\ P (snd (f x s))) ->
  P s ->
  exists ys, fst (for_each f l s) = Ok ys /\ length ys = length l /\
             Forall Q ys /\ P (snd (for_each f l s)).
Proof.
  revert s. induction l as [|x l IH]; intros s Hf Hs.
  - exists []. simpl. auto.
  - rewrite for_each_cons.
    destruct (Hf x s) as (y & Hy & HQ & HP); [left | done |].
    destruct (f x s) as [[y'|e] s1]; simpl in *; [|done]. simplify_eq.
    destruct (IH s1) as (ys & Hys & Hlen & HQs & HPs); [|done|].
    { intros x' s' Hx'. apply Hf. by right. }
    destruct (for_each f l s1) as [[ys'|e] s2]; simpl in *; [|done]. simplify_eq.
    exists (y :: ys). repeat split; auto. simpl; lia.
Qed.


End ForEach.

Lemma for_each_map {S A B C} (f : B -> M S C) (g : A -> B) l :
  for_each f (map g l) = for_each (fun x => f (g x)) l.
Proof. induction l as [|x l IH]; simpl; [done|]. by rewrite IH. Qed.

Lemma for_each_ext {S A B} (f g : A -> M S B) l s :
  (forall x, x ∈ l -> f x = g x) -> for_each f l s = for_each g l s.
Proof.
  revert s. induction l as [|x l IH]; intros s H; [done|].
  rewrite !for_each_cons, (H x) by left.
  destruct (g x s) as [[y|e] s1]; [|done].
  rewrite IH; [done|]. intros; apply H. by right.
Qed.

Lemma tuple_of_ok {A B} (g : nat -> A -> result B) (h : nat -> A -> B) xs : forall i,
  (forall j x, xs !! j = Some x -> g (i + j)%nat x = Ok (h (i + j)%nat x)) ->
  tuple_of g i xs = Ok (imap (fun j => h (i + j)%nat) xs).
Proof.
  induction xs as [|x xs IH]; intros i H; [done|].
  simpl. rewrite <- (Nat.add_0_r i) at 1. rewrite (H 0%nat x) by done.
  simpl. rewrite (IH (S i)).
  - simpl. rewrite Nat.add_0_r. do 2 f_equal. apply imap_ext.
    intros j y _. simpl. f_equal. lia.
  - intros j y Hj. replace (S i + j)%nat with (i + S j)%nat by lia. by apply H.
Qed.

Lemma zoom_eq {S T A} (get : S -> T) (set : T -> S -> S) (m : M T A) s :
  zoom get set m s = (fst (m (get s)), set (snd (m (get s))) s).
Proof. unfold zoom. by destruct (m (get s)). Qed.

Lemma zoom_for_each {S T A B} (get : S -> T) (set : T -> S -> S)
    (f : A -> M T B) l s :
  (forall t s, get (set t s) = t) ->
  (forall t t' s, set t' (set t s) = set t' s) ->
  (forall s, set (get s) s = s) ->
  zoom get set (for_each f l) s = for_each (fun x => zoom get set (f x)) l s.
Proof.
  intros L1 L2 L3. revert s. induction l as [|x l IH]; intros s.
  - rewrite zoom_eq. simpl. unfold ret. simpl. by rewrite L3.
  - rewrite zoom_eq, !for_each_cons, zoom_eq.
    destruct (f x (get s)) as [[y|e] t1]; simpl; [|done].
    rewrite <- IH, zoom_eq, L1, L2.
    destruct (for_each f l t1) as [[ys|e] t2]; done.
Qed.

(** Rules for [steps_by]. *)

Section StepsBy.
Context {S : Type} (R : S -> S -> Prop) `{!PreOrder R}.

Lemma steps_bind {A B} (m : M S A) (f : A -> M S B) :
  steps_by R m -> (forall a, steps_by R (f a)) -> steps_by R (m ≫= f).
Proof.
  intros Hm Hf s. munfold. specialize (Hm s).
  destruct (m s) as [[a|e] s1]; simpl in *; [|done].
  etrans; [done|]. apply Hf.
Qed.

Lemma steps_ret {A} (a : A) : steps_by R (mret a : M S A).
Proof. intros s. simpl. reflexivity. Qed.

Lemma steps_gets {A} (f : S -> A) : steps_by R (gets f).
Proof. intros s. simpl. reflexivity. Qed.

Lemma steps_lift_result {A} (r : result A) : steps_by R (lift_result r : M S A).
Proof. intros s. simpl. reflexivity. Qed.

Lemma steps_modify (g : S -> S) : (forall s, R s (g s)) -> steps_by R (modify g).
Proof. intros H s. apply H. Qed.

Lemma steps_try_modify (g : S -> result S) :
  (forall s s', g s = Ok s' -> R s s') -> steps_by R (try_modify g).
Proof.
  intros H s. unfold try_modify. destruct (g s) eqn:Hg; simpl; [by apply H|reflexivity].
Qed.

Lemma steps_for_each {A B} (f : A -> M S B) l :
  (forall x, steps_by R (f x)) -> steps_by R (for_each f l).
Proof.
  intros H s. apply (for_each_state f R); [reflexivity | | intros; apply H].
  intros; by etrans.
Qed.

Lemma steps_zoom {T A} (R' : T -> T -> Prop) (get : S -> T) (set : T -> S -> S)
    (m : M T A) :
  (forall s t', R' (get s) t' -> R s (set t' s)) ->
  steps_by R' m -> steps_by R (zoom get set m).
Proof.
  intros Hset Hm s. unfold zoom. specialize (Hm (get s)).
  destruct (m (get s)) as [r t']. simpl in *. by apply Hset.
Qed.

End StepsBy.

(** ** Numbers and arrays *)


Lemma Qltb_false x y : Qltb x y = false <-> (y <= x)%Q.
Proof.
  unfold Qltb. rewrite negb_false_iff. apply Qle_bool_iff.
Qed.



Lemma zeros_ok n v : Np.zeros n = Ok v -> v = replicate (Z.to_nat n) 0%Q /\ (0 <= n)%Z.
Proof.
  unfold Np.zeros. destruct (Z.ltb_spec n 0); [done|]. intros [= <-]. done.
Qed.

Lemma broadcast_same f xs ys :
  length xs = length ys -> Np.broadcast f xs ys = Ok (zip_with f xs ys).
Proof. intros H. unfold Np.broadcast. by rewrite H, Nat.eqb_refl. Qed.

Lemma indices_in_range n idx :
  Forall (fun i => (0 <= i < Z.of_nat n)%Z) idx ->
  Np.indices n idx = Ok (map Z.to_nat idx).
Proof.
  induction 1 as [|i idx Hi _ IH]; [done|].
  simpl. rewrite IH. unfold Np.index.
  destruct (Z.leb_spec 0 i); [|lia]. destruct (Z.ltb_spec i (Z.of_nat n)); [|lia].
  done.
Qed.

Lemma take_in_range a idx :
  Forall (fun i => (0 <= i < Z.of_nat (length a))%Z) idx ->
  Np.take a idx = Ok (map (fun i => nth (Z.to_nat i) a 0%Q) idx).
Proof.
  intros H. unfold Np.take. rewrite indices_in_range by done. simpl.
  by rewrite map_map.
Qed.

Lemma put_in_range a idx v :
  Forall (fun i => (0 <= i < Z.of_nat (length a))%Z) idx ->
  Np.put a idx v = Ok (foldl (fun b k => <[k := v]> b) a (map Z.to_nat idx)).
Proof. intros H. unfold Np.put. by rewrite indices_in_range. Qed.

Lemma length_foldl_insert {A} (v : A) (ks : list nat) (a : list A) :
  length (foldl (fun b k => <[k := v]> b) a ks) = length a.
Proof.
  revert a. induction ks as [|k ks IH]; intros a; [done|].
  simpl. by rewrite IH, length_insert.
Qed.

Lemma put_length a idx v a' : Np.put a idx v = Ok a' -> length a' = length a.
Proof.
  unfold Np.put. destruct (Np.indices (length a) idx) as [ks|]; [|done].
  simpl. intros [= <-]. apply length_foldl_insert.
Qed.

Lemma iadd_length a b a' : Np.iadd a b = Ok a' -> length a' = length a.
Proof.
  unfold Np.iadd. destruct (Nat.eqb_spec (length a) (length b)) as [Heq|_].
  - intros [= <-]. rewrite length_zip_with. lia.
  - destruct b as [|y [|]]; try done. intros [= <-]. by rewrite length_map.
Qed.

Lemma iadd_same a b :
  length a = length b -> Np.iadd a b = Ok (zip_with Qplus a b).
Proof. intros H. unfold Np.iadd. by rewrite H, Nat.eqb_refl. Qed.

Lemma lookup_foldl_insert {A} (v : A) (ks : list nat) (a : list A) (i : nat) :
  foldl (fun b k => <[k := v]> b) a ks !! i =
  if bool_decide (i ∈ ks) then (fun _ => v) <$> a !! i else a !! i.
Proof.
  revert a. induction ks as [|k ks IH]; intros a.
  - case_bool_decide as H; [by apply elem_of_nil in H|done].
  - change (foldl _ a (k :: ks)) with (foldl (fun b k => <[k := v]> b) (<[k := v]> a) ks).
    rewrite IH. destruct (decide (i = k)) as [->|Hne].
    + rewrite (bool_decide_eq_true_2 (k ∈ k :: ks)) by left.
      destruct (decide (k < length a)%nat).
      * rewrite list_lookup_insert_eq by done.
        destruct (a !! k) eqn:Hk; [by destruct (bool_decide _)|].
        apply lookup_ge_None in Hk. lia.
      * rewrite list_insert_ge by lia.
        assert (a !! k = None) as -> by (apply lookup_ge_None; lia).
        by destruct (bool_decide _).
    + rewrite list_lookup_insert_ne by done.
      apply (f_equal (fun b : bool => if b then _ else _)).
      apply bool_decide_ext. rewrite elem_of_cons. tauto.
Qed.

Lemma Forall_foldl_insert (P : Q -> Prop) v (ks : list nat) (a : list Q) :
  P v -> Forall P a -> Forall P (foldl (fun b k => <[k := v]> b) a ks).
Proof.
  intros Hv. revert a. induction ks as [|k ks IH]; intros a Ha; [done|].
  simpl. apply IH. by apply Forall_insert.
Qed.

Lemma put_Forall (P : Q -> Prop) a idx v a' :
  P v -> Forall P a -> Np.put a idx v = Ok a' -> Forall P a'.
Proof.
  unfold Np.put. destruct (Np.indices (length a) idx) as [ks|]; [|done].
  simpl. intros Hv Ha [= <-]. by apply Forall_foldl_insert.
Qed.

Lemma elem_of_map_to_nat (feats : list Z) (i : nat) :
  Forall (fun k => (0 <= k)%Z) feats ->
  i ∈ map Z.to_nat feats <-> Z.of_nat i ∈ feats.
Proof.
  intros Hall. change (map Z.to_nat feats) with (Z.to_nat <$> feats).
  rewrite list_elem_of_fmap. split.
  - intros (k & -> & Hk). rewrite Forall_forall in Hall.
    specialize (Hall k Hk). by rewrite Z2Nat.id.
  - intros Hi. exists (Z.of_nat i). by rewrite Nat2Z.id.
Qed.

Lemma nth_zip_with (f : Q -> Q -> Q) (xs ys : list Q) i :
  length xs = length ys -> (i < length xs)%nat ->
  nth i (zip_with f xs ys) 0%Q = f (nth i xs 0%Q) (nth i ys 0%Q).
Proof.
  revert ys i. induction xs as [|x xs IH]; intros [|y ys] [|i]; simpl; try lia; [done|].
  intros. apply IH; lia.
Qed.

Lemma zip_with_scale c (w z : list Q) :
  zip_with Qplus w (Np.scale c z) = zip_with (fun wi zi => wi + c * zi)%Q w z.
Proof.
  unfold Np.scale. change (map ?f z) with (f <$> z).
  by rewrite zip_with_fmap_r.
Qed.

Lemma zip_with_zero_traces c (w z : list Q) :
  length z = length w -> Forall (fun x => x == 0)%Q z ->
  Forall2 Qeq (zip_with (fun wi zi => wi + c * zi)%Q w z) w.
Proof.
  intros Hlen Hz. revert w Hlen.
  induction Hz as [|x z Hx _ IH]; intros [|y w] Hlen; simpl in *; try done.
  constructor; [|apply IH; lia]. rewrite Hx. ring.
Qed.

(** ** Binary64 *)

Lemma sign_clear_not_negative x : Binary64.sign_clear x -> Binary64.not_negative x.
Proof. by destruct x. Qed.

Lemma round_aux_sign_clear m e l :
  Binary64.sign_clear (binary_round_aux Binary64.prec Binary64.emax false m e l).
Proof.
  unfold binary_round_aux.
  destruct (shr_fexp _ _ m e l) as [mrs1 e1].
  destruct (shr_fexp _ _ _ e1 loc_Exact) as [mrs2 e2].
  destruct (shr_m mrs2); [done| |done].
  by destruct (Z.leb e2 _).
Qed.

Lemma round_sign_clear m e :
  Binary64.sign_clear (binary_round Binary64.prec Binary64.emax false m e).
Proof.
  unfold binary_round. destruct (shl_align _ _ _) as [mz ez].
  apply round_aux_sign_clear.
Qed.

Lemma of_Z_sign_clear n : (0 <= n)%Z -> Binary64.sign_clear (Binary64.of_Z n).
Proof.
  intros Hn. unfold Binary64.of_Z, binary_normalize.
  destruct n as [|p|p]; [done| |lia]. apply round_sign_clear.
Qed.

Lemma mul_not_negative x y :
  Binary64.not_negative x -> Binary64.not_negative y -> Binary64.not_negative (Binary64.mul x y).
Proof.
  destruct x as [sx|sx| |sx mx ex], y as [sy|sy| |sy my ey]; simpl; try done;
    try (intros -> ->; done); try (intros _ ->; done); try (intros -> _; done).
  intros -> ->. apply sign_clear_not_negative, round_aux_sign_clear.
Qed.

Lemma add_not_negative x y :
  Binary64.not_negative x -> Binary64.not_negative y -> Binary64.not_negative (Binary64.add x y).
Proof.
  destruct x as [sx|sx| |sx mx ex], y as [sy|sy| |sy my ey]; simpl; try done.
  - by destruct sx, sy.
  - by intros -> ->.
  - intros -> ->. unfold Binary64.add, SFadd. simpl.
    apply sign_clear_not_negative, round_sign_clear.
Qed.

Lemma div_not_negative x y :
  Binary64.not_negative x -> Binary64.sign_clear y -> Binary64.not_negative (Binary64.div x y).
Proof.
  destruct x as [sx|sx| |sx mx ex], y as [sy|sy| |sy my ey]; simpl; try done;
    try (intros -> ->; done); try (intros _ ->; done); try (intros -> _; done).
  intros -> ->. unfold Binary64.div, SFdiv.
  destruct (SFdiv_core_binary _ _ _ _ _ _) as [[mz ez] lz].
  apply sign_clear_not_negative, round_aux_sign_clear.
Qed.

Lemma mul_finite x y :
  Binary64.is_finite (Binary64.mul x y) = true ->
  Binary64.is_finite x = true /\ Binary64.is_finite y = true.
Proof. by destruct x, y. Qed.

Lemma add_finite x y :
  Binary64.is_finite (Binary64.add x y) = true ->
  Binary64.is_finite x = true /\ Binary64.is_finite y = true.
Proof. destruct x as [| [|]| |], y as [| [|]| |]; done. Qed.

Lemma div_finite x y :
  Binary64.is_finite (Binary64.div x y) = true -> Binary64.is_finite x = true.
Proof. by destruct x, y. Qed.

Lemma of_int_finite n :
  Binary64.is_finite (Binary64.of_Z n) = true ->
  Binary64.of_int n = Ok (Binary64.of_Z n).
Proof. unfold Binary64.of_int. by destruct (Binary64.of_Z n). Qed.

Lemma unit_float_not_negative f :
  unit_float f -> Binary64.not_negative f /\ Binary64.is_finite f = true.
Proof.
  intros (_ & H0 & H1). destruct f as [s|s| |s m e]; try done.
  - by destruct s.
  - by destruct s.
Qed.

(** On a finite float that is not negative [int()] is the floor. *)
Lemma int_floor64 x :
  Binary64.not_negative x -> Binary64.is_finite x = true ->
  Binary64.int x = Ok (Binary64.floor x).
Proof.
  destruct x as [s|s| |s m e]; try done.
  intros -> _. unfold Binary64.int, Binary64.floor, Binary64.to_Q. simpl cond_Zopp.
  f_equal. destruct e as [|p|p].
  - rewrite Qfloor_Z. by rewrite Z.shiftl_mul_pow2.
  - rewrite Qfloor_Z. by rewrite Z.shiftl_mul_pow2.
  - change (Z.shiftl (Z.pos m) (Z.neg p)) with (Z.shiftr (Z.pos m) (Z.pos p)).
    rewrite Z.shiftr_div_pow2 by done. unfold Qfloor.
    by rewrite Pos2Z.inj_pow.
Qed.

(** ** The coder *)

Section TileCoderFacts.
Variable hash : list (option Z) -> Z.
Abbreviation get_feature := (TileCoder.get_feature hash).
Abbreviation call := (TileCoder.__call__ hash).

Lemma get_feature_known cw tc i :
  TileCoder.codebook tc !! cw = Some i -> get_feature cw tc = (Ok i, tc).
Proof. intros H. unfold TileCoder.get_feature. by rewrite H. Qed.

Lemma get_feature_full cw tc :
  TileCoder.codebook tc !! cw = None ->
  (TileCoder.features tc <= tc_size tc)%Z ->
  get_feature cw tc = (mod_ (hash cw) (TileCoder.features tc), tc).
Proof.
  intros H Hfull. unfold TileCoder.get_feature. rewrite H.
  fold (tc_size tc). destruct (Z.geb_spec (tc_size tc) (TileCoder.features tc)); [done|lia].
Qed.

Lemma get_feature_fresh cw tc :
  TileCoder.codebook tc !! cw = None ->
  (tc_size tc < TileCoder.features tc)%Z ->
  get_feature cw tc =
  (Ok (tc_size tc),
   TileCoder.set_codebook (<[cw := tc_size tc]> (TileCoder.codebook tc)) tc).
Proof.
  intros H Hfull. unfold TileCoder.get_feature. rewrite H.
  fold (tc_size tc). destruct (Z.geb_spec (tc_size tc) (TileCoder.features tc)); [lia|done].
Qed.

(** The three cases of [get_feature]. *)
Lemma get_feature_cases cw tc :
  (exists i, TileCoder.codebook tc !! cw = Some i /\ get_feature cw tc = (Ok i, tc)) \/
  (TileCoder.codebook tc !! cw = None /\ (TileCoder.features tc <= tc_size tc)%Z /\
   get_feature cw tc = (mod_ (hash cw) (TileCoder.features tc), tc)) \/
  (TileCoder.codebook tc !! cw = None /\ (tc_size tc < TileCoder.features tc)%Z /\
   get_feature cw tc =
   (Ok (tc_size tc),
    TileCoder.set_codebook (<[cw := tc_size tc]> (TileCoder.codebook tc)) tc)).
Proof.
  destruct (TileCoder.codebook tc !! cw) as [i|] eqn:Hcw.
  - left. eauto using get_feature_known.
  - destruct (Z.le_gt_cases (TileCoder.features tc) (tc_size tc)).
    + right; left. eauto using get_feature_full.
    + right; right. eauto using get_feature_fresh.
Qed.

Lemma tc_size_insert cw i tc :
  TileCoder.codebook tc !! cw = None ->
  tc_size (TileCoder.set_codebook (<[cw := i]> (TileCoder.codebook tc)) tc)
  = (tc_size tc + 1)%Z.
Proof.
  intros H. unfold tc_size. simpl. rewrite map_size_insert_None by done. lia.
Qed.

Lemma tc_ext_refl tc : tc_ext tc tc.
Proof. by split. Qed.

Lemma tc_ext_size tc tc' : tc_ext tc tc' -> (tc_size tc <= tc_size tc')%Z.
Proof.
  intros [_ _ H _]. unfold tc_size. apply map_subseteq_size in H. lia.
Qed.

Lemma tc_ext_trans tc1 tc2 tc3 : tc_ext tc1 tc2 -> tc_ext tc2 tc3 -> tc_ext tc1 tc3.
Proof.
  intros H12 H23. pose proof (tc_ext_size _ _ H12) as Hsz.
  destruct H12 as [HL HF Hsub Hfull], H23 as [HL' HF' Hsub' Hfull'].
  split; [congruence | congruence | by etrans |].
  intros Hle. rewrite Hfull', Hfull; [done | done |]. rewrite HF. lia.
Qed.

Lemma get_feature_ext cw tc : tc_ext tc (snd (get_feature cw tc)).
Proof.
  destruct (get_feature_cases cw tc) as [(i & _ & ->)|[(_ & _ & ->)|(Hcw & Hlt & ->)]];
    simpl; try apply tc_ext_refl.
  split; simpl; [done | done | by apply insert_subseteq | lia].
Qed.

Lemma get_feature_inv cw tc : tc_inv tc -> tc_inv (snd (get_feature cw tc)).
Proof.
  intros Hinv.
  destruct (get_feature_cases cw tc) as [(i & _ & ->)|[(_ & _ & ->)|(Hcw & Hlt & ->)]];
    simpl; try done.
  destruct Hinv as [Hsz Hrange Hinj]. split.
  - rewrite tc_size_insert by done. simpl. lia.
  - intros cw' i. rewrite tc_size_insert by done. simpl.
    rewrite lookup_insert. case_decide; intros Hi; simplify_eq.
    + unfold tc_size. lia.
    + apply Hrange in Hi. lia.
  - intros cw1 cw2 i. simpl. rewrite !lookup_insert.
    repeat case_decide; intros H1 H2; simplify_eq; try done.
    + apply Hrange in H2. lia.
    + apply Hrange in H1. lia.
    + eauto.
Qed.

(** With a positive capacity [get_feature] returns, and its index is a
    slot of the table. *)
Lemma get_feature_total cw tc :
  (0 < TileCoder.features tc)%Z -> tc_inv tc ->
  exists i, fst (get_feature cw tc) = Ok i /\ (0 <= i < TileCoder.features tc)%Z.
Proof.
  intros Hpos Hinv.
  destruct (get_feature_cases cw tc) as [(i & Hi & ->)|[(_ & _ & ->)|(Hcw & Hlt & ->)]];
    simpl.
  - exists i. split; [done|]. apply Hinv in Hi. pose proof (tc_inv_size _ Hinv). lia.
  - unfold mod_. destruct (Z.eqb_spec (TileCoder.features tc) 0); [lia|].
    eexists; split; [done|]. by apply Z.mod_pos_bound.
  - eexists; split; [done|]. unfold tc_size in *. lia.
Qed.

Lemma get_feature_stable cw tc i tc1 tc2 :
  get_feature cw tc = (Ok i, tc1) -> tc_ext tc1 tc2 ->
  get_feature cw tc2 = (Ok i, tc2).
Proof.
  intros Hget Hext.
  destruct (get_feature_cases cw tc) as [(j & Hj & Heq)|[(Hcw & Hfull & Heq)|(Hcw & Hlt & Heq)]];
    rewrite Heq in Hget; simplify_eq.
  - apply get_feature_known. eapply lookup_weaken; [done|]. apply Hext.
  - rewrite get_feature_full.
    + rewrite (tc_ext_features _ _ Hext). congruence.
    + by rewrite (tc_ext_full _ _ Hext).
    + rewrite (tc_ext_features _ _ Hext). unfold tc_size.
      by rewrite (tc_ext_full _ _ Hext).
  - apply get_feature_known. eapply lookup_weaken; [|apply Hext].
    simpl. by rewrite lookup_insert_eq.
Qed.

Lemma call_unfold floats ints tc :
  call floats ints tc =
  for_each (fun layer =>
              get_feature
                (TileCoder.codeword_of (TileCoder.layers tc)
                   (Z.of_nat (length floats))
                   (map (fun f => f * inject_Z (TileCoder.layers tc)
                                  * inject_Z (TileCoder.layers tc))%Q floats)
                   ints layer))
           (range (TileCoder.layers tc)) tc.
Proof. done. Qed.

Lemma call_ext floats ints tc : tc_ext tc (snd (call floats ints tc)).
Proof.
  rewrite call_unfold.
  apply (for_each_state _ tc_ext); auto using tc_ext_refl, get_feature_ext.
  intros; by eapply tc_ext_trans.
Qed.

Lemma call_inv floats ints tc : tc_inv tc -> tc_inv (snd (call floats ints tc)).
Proof.
  intros H. rewrite call_unfold.
  apply (for_each_state _ (fun s s' => tc_inv s -> tc_inv s')); auto.
  intros; by apply get_feature_inv.
Qed.

Lemma tc_steps_ext tc tc' : tc_steps hash tc tc' -> tc_ext tc tc'.
Proof.
  induction 1; [apply tc_ext_refl | |];
    (eapply tc_ext_trans; [done|]); auto using get_feature_ext, call_ext.
Qed.

Lemma tc_steps_inv tc tc' : tc_steps hash tc tc' -> tc_inv tc -> tc_inv tc'.
Proof. induction 1; auto using get_feature_inv, call_inv. Qed.

Lemma tc_init_inv L F : (0 <= F)%Z -> tc_inv (TileCoder.__init__ L F).
Proof.
  intros HF. split; simpl.
  - unfold tc_size. simpl. rewrite map_size_empty. lia.
  - intros cw i. by rewrite lookup_empty.
  - intros cw1 cw2 i. by rewrite lookup_empty.
Qed.

Lemma call_total floats ints tc :
  (0 < TileCoder.features tc)%Z -> tc_inv tc ->
  exists feats,
    fst (call floats ints tc) = Ok feats /\
    length feats = Z.to_nat (TileCoder.layers tc) /\
    Forall (fun i => (0 <= i < TileCoder.features tc)%Z) feats.
Proof.
  intros Hpos Hinv. rewrite call_unfold.
  edestruct (for_each_total
    (fun layer => get_feature
                (TileCoder.codeword_of (TileCoder.layers tc)
                   (Z.of_nat (length floats))
                   (map (fun f => f * inject_Z (TileCoder.layers tc)
                                  * inject_Z (TileCoder.layers tc))%Q floats)
                   ints layer))
    (fun s => tc_inv s /\ TileCoder.features s = TileCoder.features tc)
    (fun i => (0 <= i < TileCoder.features tc)%Z)
    (range (TileCoder.layers tc)) tc) as (feats & Hok & Hlen & Hall & _).
  - intros layer s _ [Hs HF].
    destruct (get_feature_total (TileCoder.codeword_of (TileCoder.layers tc)
                   (Z.of_nat (length floats))
                   (map (fun f => f * inject_Z (TileCoder.layers tc)
                                  * inject_Z (TileCoder.layers tc))%Q floats)
                   ints layer) s) as (i & Hi & Hr); [lia | done |].
    exists i. rewrite <- HF. split; [done|]. split; [done|]. split.
    + by apply get_feature_inv.
    + apply get_feature_ext.
  - done.
  - exists feats. unfold range in Hlen. rewrite length_seqZ in Hlen. auto.
Qed.

Lemma later_entries_refl tc : later_entries tc tc.
Proof. split; [apply tc_ext_refl|]. intros cw i H1 H2. congruence. Qed.

Lemma later_entries_trans tc1 tc2 tc3 :
  later_entries tc1 tc2 -> later_entries tc2 tc3 -> later_entries tc1 tc3.
Proof.
  intros [E12 H12] [E23 H23]. split; [by eapply tc_ext_trans|].
  intros cw i H3 H1.
  destruct (TileCoder.codebook tc2 !! cw) as [j|] eqn:H2.
  - assert (TileCoder.codebook tc3 !! cw = Some j) as Hj
      by (eapply lookup_weaken; [done|apply E23]).
    rewrite H3 in Hj. simplify_eq. eauto.
  - pose proof (tc_ext_size _ _ E12). pose proof (H23 _ _ H3 H2). lia.
Qed.

Lemma get_feature_later cw tc : later_entries tc (snd (get_feature cw tc)).
Proof.
  split; [apply get_feature_ext|].
  destruct (get_feature_cases cw tc)
    as [(i & _ & ->)|[(_ & _ & ->)|(Hcw & Hlt & ->)]]; simpl;
    intros cw' i'; try congruence.
  rewrite lookup_insert. case_decide; intros; simplify_eq. lia.
Qed.

Lemma call_later floats ints tc : later_entries tc (snd (call floats ints tc)).
Proof.
  rewrite call_unfold.
  apply (for_each_state _ later_entries);
    eauto using later_entries_refl, later_entries_trans, get_feature_later.
Qed.

Lemma tc_steps_later tc tc' : tc_steps hash tc tc' -> later_entries tc tc'.
Proof.
  induction 1; [apply later_entries_refl | |];
    (eapply later_entries_trans; [done|]); auto using get_feature_later, call_later.
Qed.

Lemma tc_reachable_inv L F tc :
  (0 <= F)%Z -> tc_reachable hash L F tc ->
  tc_inv tc /\ TileCoder.layers tc = L /\ TileCoder.features tc = F.
Proof.
  intros HF Hr. split.
  - eapply tc_steps_inv; [done|]. by apply tc_init_inv.
  - apply tc_steps_ext in Hr. destruct Hr as [HL HF' _ _]. done.
Qed.

Lemma for_each_get_feature_stable cws tc feats tc' :
  for_each (TileCoder.get_feature hash) cws tc = (Ok feats, tc') ->
  forall tc'', tc_ext tc' tc'' ->
  for_each (TileCoder.get_feature hash) cws tc'' = (Ok feats, tc'').
Proof.
  revert tc feats. induction cws as [|cw cws IH]; intros tc feats.
  - simpl. unfold ret. intros [= <- <-] tc'' _. done.
  - rewrite for_each_cons.
    destruct (TileCoder.get_feature hash cw tc) as [[i|e] tc1] eqn:Hcw; [|done].
    destruct (for_each (TileCoder.get_feature hash) cws tc1) as [[js|e] tc2] eqn:Hrest;
      [|done].
    intros [= <- <-] tc'' Hext. rewrite for_each_cons.
    assert (tc_ext tc1 tc2) as H12.
    { replace tc2 with (snd (for_each (TileCoder.get_feature hash) cws tc1))
        by (by rewrite Hrest).
      apply (for_each_state _ tc_ext); auto using tc_ext_refl, get_feature_ext.
      intros; by eapply tc_ext_trans. }
    rewrite (get_feature_stable cw tc i tc1 tc'') by
      (done || by eapply tc_ext_trans).
    by rewrite (IH _ _ Hrest tc'' Hext).
Qed.

(** Encoding the same input again finds the same indices and leaves
    the table as it is. *)
Lemma call_stable floats ints tc feats tc' tc'' :
  TileCoder.__call__ hash floats ints tc = (Ok feats, tc') ->
  tc_ext tc' tc'' ->
  TileCoder.__call__ hash floats ints tc'' = (Ok feats, tc'').
Proof.
  intros Hcall Hext. rewrite call_unfold in *.
  assert (TileCoder.layers tc'' = TileCoder.layers tc) as ->.
  { rewrite (tc_ext_layers _ _ Hext).
    pose proof (call_ext floats ints tc) as H.
    rewrite call_unfold, Hcall in H. apply H. }
  rewrite <- for_each_map in *.
  by eapply for_each_get_feature_stable.
Qed.

(** C4. On every table reachable from construction, [__call__] returns,
    and returns exactly [layers] indices, each of [[0, features)]: also
    those that come from the hash once the table is full. *)
Theorem call_returns_layers_indices L F tc floats ints :
  (1 <= F)%Z -> (0 <= L)%Z -> tc_reachable hash L F tc ->
  exists feats,
    fst (call floats ints tc) = Ok feats /\
    Z.of_nat (length feats) = L /\
    Forall (fun i => (0 <= i < F)%Z) feats.
Proof.
  intros HF HL Hr.
  destruct (tc_reachable_inv L F tc) as (Hinv & <- & <-); [lia|done|].
  destruct (call_total floats ints tc) as (feats & Hok & Hlen & Hall);
    [lia|done|].
  exists feats. repeat split; [done| lia |done].
Qed.

(** C5. The codebook over any sequence of calls: it never holds more than
    [features] entries; it never shrinks; a full codebook is never
    changed again; an entry, once made, stays as it is; a codeword that
    is entered gets the size of the table at that moment as its index,
    and entries made later get indices from that size on, so that the
    indices in use are below the size and no two codewords share one. *)
Theorem codebook_growth L F tc tc' :
  (0 <= F)%Z -> tc_reachable hash L F tc -> tc_steps hash tc tc' ->
  (tc_size tc <= F)%Z /\
  (tc_size tc <= tc_size tc')%Z /\
  (tc_size tc = F -> TileCoder.codebook tc' = TileCoder.codebook tc) /\
  (forall cw i, TileCoder.codebook tc !! cw = Some i ->
                TileCoder.codebook tc' !! cw = Some i) /\
  (forall cw i, TileCoder.codebook tc !! cw = None ->
                TileCoder.codebook (snd (get_feature cw tc)) !! cw = Some i ->
                i = tc_size tc /\ fst (get_feature cw tc) = Ok i) /\
  (forall cw i, TileCoder.codebook tc !! cw = None ->
                TileCoder.codebook tc' !! cw = Some i -> (tc_size tc <= i)%Z) /\
  (forall cw i, TileCoder.codebook tc !! cw = Some i -> (0 <= i < tc_size tc)%Z) /\
  (forall cw1 cw2 i, TileCoder.codebook tc !! cw1 = Some i ->
                     TileCoder.codebook tc !! cw2 = Some i -> cw1 = cw2).
Proof.
  intros HF Hr Hsteps.
  destruct (tc_reachable_inv L F tc) as (Hinv & HLeq & HFeq); [done..|].
  destruct (tc_steps_later _ _ Hsteps) as [Hext Hlater].
  split; [rewrite <- HFeq; apply Hinv|].
  split; [by apply tc_ext_size|].
  split; [intros Hfull; apply Hext; lia|].
  split; [intros cw i Hi; eapply lookup_weaken; [done|apply Hext]|].
  split; [|split; [by eauto|split; apply Hinv]].
  intros cw i Hnone.
  destruct (get_feature_cases cw tc)
    as [(j & Hj & _)|[(_ & _ & ->)|(_ & _ & ->)]]; simpl; [congruence..|].
  rewrite lookup_insert_eq. intros; by simplify_eq.
Qed.

End TileCoderFacts.

(** ** The coder on binary64 floats *)

Section TileCoder64Facts.
Variable hash : list (option Z) -> Z.
Abbreviation get_feature := (TileCoder.get_feature hash).

Lemma for_each_get_feature_ext cws tc :
  tc_ext tc (snd (for_each get_feature cws tc)).
Proof.
  apply (for_each_state _ tc_ext); auto using tc_ext_refl, get_feature_ext.
  intros; by eapply tc_ext_trans.
Qed.

Lemma for_each_get_feature_later cws tc :
  later_entries tc (snd (for_each get_feature cws tc)).
Proof.
  apply (for_each_state _ later_entries);
    eauto using later_entries_refl, later_entries_trans, get_feature_later.
Qed.

Lemma resolved_ext tc tc' cw k :
  resolved hash tc cw k -> tc_ext tc tc' -> resolved hash tc' cw k.
Proof.
  intros [Hin|(Hnone & Hfull & Hk)] Hext.
  - left. eapply lookup_weaken; [done|apply Hext].
  - right. rewrite (tc_ext_features _ _ Hext). unfold tc_size.
    rewrite (tc_ext_full _ _ Hext) by done. done.
Qed.

Lemma get_feature_resolved cw tc k tc' :
  get_feature cw tc = (Ok k, tc') -> resolved hash tc' cw k.
Proof.
  intros Hget.
  destruct (get_feature_cases hash cw tc)
    as [(j & Hj & Heq)|[(Hnone & Hfull & Heq)|(Hnone & Hlt & Heq)]];
    rewrite Heq in Hget; simplify_eq.
  - by left.
  - by right.
  - left. simpl. by rewrite lookup_insert_eq.
Qed.

(** Every codeword that a loop over [get_feature] has gone through is
    resolved, in the table the loop leaves, to the index returned for it. *)
Lemma for_each_get_feature_resolved cws : forall tc feats tc',
  for_each get_feature cws tc = (Ok feats, tc') ->
  Forall2 (resolved hash tc') cws feats.
Proof.
  induction cws as [|cw cws IH]; intros tc feats tc'.
  - simpl. unfold ret. intros [= <- <-]. constructor.
  - rewrite for_each_cons.
    destruct (get_feature cw tc) as [[i|e] tc1] eqn:Hcw; [|done].
    destruct (for_each get_feature cws tc1) as [[js|e] tc2] eqn:Hrest; [|done].
    intros [= <- <-]. constructor; [|by eapply IH].
    eapply resolved_ext; [by eapply get_feature_resolved|].
    pose proof (for_each_get_feature_ext cws tc1) as H. by rewrite Hrest in H.
Qed.

(** Such a loop enters no other codeword than those it goes through. *)
Lemma for_each_get_feature_keys cws : forall tc cw k,
  TileCoder.codebook (snd (for_each get_feature cws tc)) !! cw = Some k ->
  TileCoder.codebook tc !! cw = Some k \/ cw ∈ cws.
Proof.
  induction cws as [|cw0 cws IH]; intros tc cw k; [by left|].
  rewrite for_each_cons.
  destruct (get_feature_cases hash cw0 tc)
    as [(j & Hj & Heq)|[(Hnone & Hfull & Heq)|(Hnone & Hlt & Heq)]]; rewrite Heq.
  - pose proof (IH tc cw k) as H.
    destruct (for_each get_feature cws tc) as [[js|e] tc2]; simpl in *;
      intros Hk; destruct (H Hk); auto using list_elem_of_further.
  - unfold mod_. destruct (Z.eqb _ 0); [by left|].
    pose proof (IH tc cw k) as H.
    destruct (for_each get_feature cws tc) as [[js|e] tc2]; simpl in *;
      intros Hk; destruct (H Hk); auto using list_elem_of_further.
  - set (tc1 := TileCoder.set_codebook _ tc).
    pose proof (IH tc1 cw k) as H.
    assert (TileCoder.codebook tc1 !! cw = Some k ->
            TileCoder.codebook tc !! cw = Some k \/ cw ∈ cw0 :: cws) as H1.
    { unfold tc1. simpl. rewrite lookup_insert. case_decide; [|by left].
      subst. intros _. right. left. }
    destruct (for_each get_feature cws tc1) as [[js|e] tc2]; simpl in *;
      intros Hk; destruct (H Hk); auto using list_elem_of_further.
Qed.

(** Of two new codewords that such a loop enters, the one it meets first
    gets the smaller index. *)
Lemma for_each_get_feature_order cws : forall tc i j cw1 cw2 k1 k2,
  let tc' := snd (for_each get_feature cws tc) in
  NoDup cws -> (i < j)%nat ->
  cws !! i = Some cw1 -> cws !! j = Some cw2 ->
  TileCoder.codebook tc !! cw1 = None ->
  TileCoder.codebook tc !! cw2 = None ->
  TileCoder.codebook tc' !! cw1 = Some k1 ->
  TileCoder.codebook tc' !! cw2 = Some k2 ->
  (k1 < k2)%Z.
Proof.
  induction cws as [|cw0 cws IH]; intros tc i j cw1 cw2 k1 k2 tc' Hnd Hij Hi Hj H1 H2 Hk1 Hk2;
    [done|].
  apply NoDup_cons in Hnd as [Hnotin Hnd].
  destruct j as [|j]; [lia|]. simpl in Hj.
  assert (cw2 ≠ cw0) as Hne2.
  { intros ->. apply Hnotin. by eapply list_elem_of_lookup_2. }
  unfold tc' in *. clear tc'. rewrite for_each_cons in Hk1, Hk2.
  pose proof (get_feature_later hash cw0 tc) as [Hext0 Hlater0].
  pose proof (for_each_get_feature_later cws (snd (get_feature cw0 tc))) as [Hext1 Hlater1].
  pose proof (IH (snd (get_feature cw0 tc))) as IH'.
  destruct (get_feature_cases hash cw0 tc)
    as [(n & Hn & Heq)|[(Hnone & Hfull & Heq)|(Hnone & Hlt & Heq)]];
    rewrite Heq in *; simpl in *.
  - (* cw0 known: the table is as before *)
    assert (TileCoder.codebook (snd (for_each get_feature cws tc)) !! cw1 = Some k1) as Hk1'
      by (destruct (for_each get_feature cws tc) as [[?|?] ?]; done).
    assert (TileCoder.codebook (snd (for_each get_feature cws tc)) !! cw2 = Some k2) as Hk2'
      by (destruct (for_each get_feature cws tc) as [[?|?] ?]; done).
    destruct i as [|i]; simpl in Hi; [congruence|].
    eapply (IH' i j cw1 cw2); eauto; lia.
  - (* table full: nothing is entered any more *)
    exfalso.
    assert (TileCoder.codebook (snd (for_each get_feature cws tc)) !! cw2 = Some k2) as Hk2'.
    { unfold mod_ in Hk2. destruct (Z.eqb _ 0); simpl in Hk2; [congruence|].
      destruct (for_each get_feature cws tc) as [[?|?] ?]; done. }
    rewrite (tc_ext_full _ _ Hext1) in Hk2' by done. congruence.
  - set (tc1 := TileCoder.set_codebook _ tc) in *.
    assert (TileCoder.codebook (snd (for_each get_feature cws tc1)) !! cw1 = Some k1) as Hk1'
      by (destruct (for_each get_feature cws tc1) as [[?|?] ?]; done).
    assert (TileCoder.codebook (snd (for_each get_feature cws tc1)) !! cw2 = Some k2) as Hk2'
      by (destruct (for_each get_feature cws tc1) as [[?|?] ?]; done).
    assert (TileCoder.codebook tc1 !! cw2 = None) as H2'.
    { unfold tc1. simpl. by rewrite lookup_insert_ne. }
    destruct i as [|i]; simpl in Hi.
    + simplify_eq.
      assert (k1 = tc_size tc) as ->.
      { assert (TileCoder.codebook tc1 !! cw1 = Some (tc_size tc)) as Hin
          by (unfold tc1; simpl; by rewrite lookup_insert_eq).
        eapply lookup_weaken in Hin; [|apply Hext1]. congruence. }
      pose proof (Hlater1 _ _ Hk2' H2') as Hge.
      unfold tc1 in Hge. rewrite tc_size_insert in Hge by done. lia.
    + assert (cw1 ≠ cw0) as Hne1.
      { intros ->. apply Hnotin. by eapply list_elem_of_lookup_2. }
      eapply (IH' i j cw1 cw2); eauto; [lia|].
      unfold tc1. simpl. by rewrite lookup_insert_ne.
Qed.

Lemma for_each_get_feature_total cws tc :
  (0 < TileCoder.features tc)%Z -> tc_inv tc ->
  exists feats tc', for_each get_feature cws tc = (Ok feats, tc').
Proof.
  intros Hpos Hinv.
  destruct (for_each_total get_feature
              (fun s => tc_inv s /\ TileCoder.features s = TileCoder.features tc)
              (fun _ => True) cws tc) as (feats & Hok & _).
  - intros cw s _ [Hs HF].
    destruct (get_feature_total hash cw s) as (i & Hi & Hr); [lia|done|].
    exists i. split; [done|]. split; [done|]. split.
    + by apply get_feature_inv.
    + rewrite <- HF. apply get_feature_ext.
  - done.
  - exists feats, (snd (for_each get_feature cws tc)).
    destruct (for_each get_feature cws tc); simpl in *; by subst.
Qed.

Lemma scaled_ok L floats :
  (floats <> [] -> Binary64.is_finite (Binary64.of_Z L) = true) ->
  tuple_of (fun _ f => TileCoder64.scaled L f) 0 floats =
  Ok (map (fun f => Binary64.mul (Binary64.mul f (Binary64.of_Z L)) (Binary64.of_Z L))
          floats).
Proof.
  intros HL.
  rewrite (tuple_of_ok _ (fun _ f => Binary64.mul (Binary64.mul f (Binary64.of_Z L))
                                       (Binary64.of_Z L))).
  - f_equal. apply (imap_const (fun f => Binary64.mul (Binary64.mul f (Binary64.of_Z L))
                                           (Binary64.of_Z L))).
  - intros j x Hj. unfold TileCoder64.scaled.
    rewrite of_int_finite by (apply HL; by destruct floats). done.
Qed.

Lemma cell_ok L dim l i f :
  (0 <= L)%Z -> (0 <= dim)%Z -> (0 <= l)%Z -> unit_float f ->
  Binary64.is_finite (cell64 L dim i f l) = true ->
  TileCoder64.cell L dim l i
    (Binary64.mul (Binary64.mul f (Binary64.of_Z L)) (Binary64.of_Z L))
  = Ok (Binary64.floor (cell64 L dim i f l)).
Proof.
  intros HL Hdim Hl Hf Hfin. unfold cell64 in *.
  pose proof (div_finite _ _ Hfin) as Hsum.
  apply add_finite in Hsum as [Hprod Hk].
  apply mul_finite in Hprod as [_ Hn].
  unfold TileCoder64.cell. rewrite !of_int_finite by done.
  apply int_floor64; [|done].
  apply unit_float_not_negative in Hf as [Hf _].
  assert (Binary64.sign_clear (Binary64.of_Z L)) as HLs by (by apply of_Z_sign_clear).
  apply div_not_negative; [|done].
  apply add_not_negative.
  - by repeat apply mul_not_negative; auto using sign_clear_not_negative.
  - apply sign_clear_not_negative, of_Z_sign_clear. nia.
Qed.

Lemma codeword_of_ok L floats ints l :
  (0 <= l < L)%Z -> Forall unit_float floats ->
  (forall i f, floats !! i = Some f ->
     Binary64.is_finite (cell64 L (Z.of_nat (length floats)) i f l) = true) ->
  TileCoder64.codeword_of L (Z.of_nat (length floats))
    (map (fun f => Binary64.mul (Binary64.mul f (Binary64.of_Z L)) (Binary64.of_Z L))
         floats) ints l
  = Ok (codeword64 L floats ints l).
Proof.
  intros Hl Hunit Hfin. unfold TileCoder64.codeword_of.
  rewrite (tuple_of_ok _
    (fun i x => Binary64.floor
                  (Binary64.div
                     (Binary64.add x
                        (Binary64.of_Z ((1 + Z.of_nat (length floats) * Z.of_nat i) * l)))
                     (Binary64.of_Z L)))).
  - simpl. unfold codeword64. do 2 f_equal.
    change (map ?f ?l) with (f <$> l).
    by rewrite imap_fmap, fmap_imap.
  - intros j x Hj. change (map ?f ?l) with (f <$> l) in Hj.
    rewrite list_lookup_fmap in Hj.
    destruct (floats !! j) as [f|] eqn:Hf; [|done]. simpl in Hj. injection Hj as <-.
    simpl. rewrite Forall_lookup in Hunit.
    apply (cell_ok L (Z.of_nat (length floats)) l j f); eauto; lia.
Qed.

Lemma call64_unfold L floats ints tc :
  TileCoder.layers tc = L -> (0 <= L)%Z ->
  Forall unit_float floats ->
  (forall l i f, (0 <= l < L)%Z -> floats !! i = Some f ->
     Binary64.is_finite (cell64 L (Z.of_nat (length floats)) i f l) = true) ->
  TileCoder64.__call__ hash floats ints tc =
  for_each get_feature (map (codeword64 L floats ints) (seqZ 0 L)) tc.
Proof.
  intros HL HL0 Hunit Hfin. unfold TileCoder64.__call__. munfold. rewrite HL.
  rewrite scaled_ok.
  - rewrite for_each_map. apply for_each_ext. intros l Hl.
    unfold range in Hl. apply elem_of_seqZ in Hl.
    rewrite codeword_of_ok; [done|lia|done|]. intros i f. apply Hfin. lia.
  - intros Hne. destruct floats as [|f floats]; [done|].
    destruct (decide (L = 0%Z)) as [->|HLne]; [done|].
    assert (Binary64.is_finite (cell64 L (Z.of_nat (length (f :: floats))) 0 f 0%Z) = true)
      as H by (apply Hfin; [lia|done]).
    unfold cell64 in H. apply div_finite, add_finite in H as [H _].
    by apply mul_finite in H as [_ H].
Qed.

Lemma tc_steps_trans tc1 tc2 tc3 :
  tc_steps hash tc1 tc2 -> tc_steps hash tc2 tc3 -> tc_steps hash tc1 tc3.
Proof. intros H12 H23. induction H23; [done| |]; by constructor. Qed.

(** A call on floats takes the coder where calls of [get_feature] take
    it: every table it leaves is a reachable one. *)
Lemma call64_steps floats ints tc :
  tc_steps hash tc (snd (TileCoder64.__call__ hash floats ints tc)).
Proof.
  unfold TileCoder64.__call__. munfold.
  destruct (tuple_of _ 0 floats) as [scaled|e]; [|constructor].
  apply (for_each_state _ (tc_steps hash)); [constructor|apply tc_steps_trans|].
  intros l s.
  destruct (TileCoder64.codeword_of _ _ scaled ints l) as [cw|e]; [|constructor].
  apply tc_steps_get_feature. constructor.
Qed.

(** C3, as the code has it.  On binary64 numbers of [[0, 1]], and as
    long as every coordinate is a finite float, [__call__] returns one
    index per layer, and the index of layer [l] is what [get_feature]
    makes of the codeword [(l, c_0, c_1, ..., ints...)]: the layer, then
    for the value [x] at position [i] the integer
    [c_i = floor(((x * layers) * layers + (1 + dim*i) * l) / layers)],
    where every [*], [+] and [/] is rounded to binary64 and the floor is
    that of the rounded quotient, then the discrete inputs unchanged.  No
    other codeword is entered in the table, and the layers are gone
    through in increasing order: of two codewords that this call enters,
    the one of the lower layer gets the smaller index.  (The tables
    reachable from construction include those that calls on floats
    leave, see [call64_steps].) *)
Theorem call_resolves_binary64_codewords L F tc floats ints :
  (1 <= F)%Z -> (0 <= L)%Z -> tc_reachable hash L F tc ->
  Forall unit_float floats ->
  (forall l i f, (0 <= l < L)%Z -> floats !! i = Some f ->
     Binary64.is_finite (cell64 L (Z.of_nat (length floats)) i f l) = true) ->
  exists feats tc',
    TileCoder64.__call__ hash floats ints tc = (Ok feats, tc') /\
    Z.of_nat (length feats) = L /\
    (forall l, (0 <= l < L)%Z ->
       exists k, feats !! Z.to_nat l = Some k /\
                 resolved hash tc' (codeword64 L floats ints l) k) /\
    (forall cw k, TileCoder.codebook tc' !! cw = Some k ->
       TileCoder.codebook tc !! cw = Some k \/
       exists l, (0 <= l < L)%Z /\ cw = codeword64 L floats ints l) /\
    (forall l1 l2 k1 k2, (0 <= l1 < l2)%Z -> (l2 < L)%Z ->
       TileCoder.codebook tc !! codeword64 L floats ints l1 = None ->
       TileCoder.codebook tc !! codeword64 L floats ints l2 = None ->
       TileCoder.codebook tc' !! codeword64 L floats ints l1 = Some k1 ->
       TileCoder.codebook tc' !! codeword64 L floats ints l2 = Some k2 ->
       (k1 < k2)%Z).
Proof.
  intros HF HL Hr Hunit Hfin.
  destruct (tc_reachable_inv hash L F tc) as (Hinv & HLeq & HFeq); [lia|done|].
  rewrite (call64_unfold L) by done.
  set (cws := map (codeword64 L floats ints) (seqZ 0 L)).
  destruct (for_each_get_feature_total cws tc) as (feats & tc' & Hrun); [lia|done|].
  assert (forall l, (0 <= l < L)%Z -> cws !! Z.to_nat l = Some (codeword64 L floats ints l))
    as Hcws.
  { intros l Hl. unfold cws. change (map ?f ?l) with (f <$> l).
    rewrite list_lookup_fmap, lookup_seqZ_lt by lia. simpl. f_equal. f_equal. lia. }
  pose proof (for_each_get_feature_resolved cws tc feats tc' Hrun) as Hres.
  exists feats, tc'. split; [done|]. split; [|split; [|split]].
  - apply Forall2_length in Hres. rewrite <- Hres. unfold cws.
    rewrite length_map, length_seqZ. lia.
  - intros l Hl.
    destruct (Forall2_lookup_l _ _ _ _ _ Hres (Hcws l Hl)) as (k & Hk & Hr').
    by exists k.
  - intros cw k Hk.
    destruct (for_each_get_feature_keys cws tc cw k) as [H|H];
      [by rewrite Hrun | by left |].
    right. unfold cws in H. apply list_elem_of_fmap in H as (l & -> & Hl).
    apply elem_of_seqZ in Hl. exists l. split; [lia|done].
  - intros l1 l2 k1 k2 H12 H2L Hn1 Hn2 Hk1 Hk2.
    apply (for_each_get_feature_order cws tc (Z.to_nat l1) (Z.to_nat l2)
             (codeword64 L floats ints l1) (codeword64 L floats ints l2));
      try (rewrite Hrun; done); try done; try (apply Hcws; lia); [|lia].
    unfold cws. apply NoDup_fmap_2_strong; [|apply NoDup_seqZ].
    intros x y _ _. unfold codeword64. simpl. by intros [= ->].
Qed.

End TileCoder64Facts.

(** ** The agent *)

Lemma init_fields env L F g lr eps lam s0 :
  SARSALambdaAgent.__init__ env L F g lr eps lam = Ok s0 ->
  SARSALambdaAgent.z s0 = replicate (Z.to_nat F) 0%Q /\
  SARSALambdaAgent.w s0 = replicate (Z.to_nat F) 0%Q /\
  SARSALambdaAgent.gamma s0 = g /\
  SARSALambdaAgent.lambd s0 = lam /\
  SARSALambdaAgent.epsilon s0 = eps /\
  SARSALambdaAgent.encoder s0 = TileCoder.__init__ L F /\
  (0 <= F)%Z.
Proof.
  unfold SARSALambdaAgent.__init__, SARSAAgent.__init__. munfold.
  destruct (Np.subtract _ _) as [scale|]; simpl; [|done].
  destruct (Np.zeros F) as [zs|] eqn:Hz; simpl; [|done].
  apply zeros_ok in Hz as [-> HF]. intros [= <-]. done.
Qed.

Lemma init_wf env L F g lr eps lam :
  env_ok env -> (1 <= F)%Z ->
  exists s0, SARSALambdaAgent.__init__ env L F g lr eps lam = Ok s0 /\ agent_wf s0.
Proof.
  intros Henv HF. unfold SARSALambdaAgent.__init__, SARSAAgent.__init__. munfold.
  unfold Np.subtract. rewrite broadcast_same
    by (symmetry; by eapply Forall2_length).
  unfold Np.zeros. destruct (Z.ltb_spec F 0); [lia|]. simpl.
  eexists; split; [done|].
  split; unfold SARSALambdaAgent.encoder, SARSALambdaAgent.w; simpl.
  - apply tc_init_inv. lia.
  - lia.
  - rewrite length_replicate. lia.
  - done.
  - rewrite length_zip_with. apply Forall2_length in Henv. lia.
  - unfold env_ok in Henv. induction Henv as [|l h ls hs Hlt _ IH]; simpl; [done|].
    constructor; [|done]. intros Heq. lra.
Qed.

Lemma sample_agent_init :
  SARSALambdaAgent.__init__ sample_env 2 10 1%Q (3 # 100)%Q (1 # 1000)%Q (9 # 10)%Q
  = Ok sample_agent.
Proof. reflexivity. Qed.

Lemma sample_agent_wf : agent_wf sample_agent.
Proof.
  destruct (init_wf sample_env 2 10 1%Q (3 # 100)%Q (1 # 1000)%Q (9 # 10)%Q)
    as (s0 & Hs0 & Hwf).
  - repeat constructor.
  - lia.
  - rewrite sample_agent_init in Hs0. by injection Hs0 as <-.
Qed.

Lemma set_encoder_id b : SARSAAgent.set_encoder (SARSAAgent.encoder b) b = b.
Proof. by destruct b. Qed.

Lemma base_frame_refl b : base_frame b b.
Proof. split; [by rewrite set_encoder_id | apply tc_ext_refl | done]. Qed.

Lemma base_frame_trans b1 b2 b3 :
  base_frame b1 b2 -> base_frame b2 b3 -> base_frame b1 b3.
Proof.
  intros [E12 X12 I12] [E23 X23 I23]. split.
  - rewrite E23 at 1. rewrite E12. done.
  - by eapply tc_ext_trans.
  - auto.
Qed.

Lemma base_frame_set_encoder b tc :
  tc_ext (SARSAAgent.encoder b) tc ->
  (tc_inv (SARSAAgent.encoder b) -> tc_inv tc) ->
  base_frame b (SARSAAgent.set_encoder tc b).
Proof. intros. by split. Qed.

#[local] Instance base_frame_preorder : PreOrder base_frame.
Proof. split; [intros b; apply base_frame_refl | intros b1 b2 b3; apply base_frame_trans]. Qed.

#[local] Instance agent_step_preorder : PreOrder agent_step.
Proof.
  split.
  - intros s. split; auto.
  - intros s1 s2 s3 [L12 G12 W12 T12] [L23 G23 W23 T23]. split; [congruence..|auto|].
    intros P H0 H1 Hd Hz. apply T23; auto.
    rewrite L12, G12. done.
Qed.

Section AgentFacts.
Variable hash : list (option Z) -> Z.
Abbreviation get_q := (SARSALambdaAgent.get_q hash).
Abbreviation encode := (SARSALambdaAgent.encode hash).
Abbreviation learn := (SARSALambdaAgent.learn hash).

Lemma base_encode_frame o a b :
  base_frame b (snd (SARSAAgent.encode hash o a b)).
Proof.
  unfold SARSAAgent.encode. munfold.
  destruct (Np.subtract _ _); simpl; [|apply base_frame_refl].
  destruct (Np.divide _ _) as [states|]; simpl; [|apply base_frame_refl].
  pose proof (call_ext hash states [a] (SARSAAgent.encoder b)) as Hext.
  pose proof (call_inv hash states [a] (SARSAAgent.encoder b)) as Hinv.
  destruct (TileCoder.__call__ _ _ _ _) as [r tc']. simpl in *.
  by apply base_frame_set_encoder.
Qed.

Lemma base_get_q_frame o a b :
  base_frame b (snd (SARSAAgent.get_q hash o a b)).
Proof.
  unfold SARSAAgent.get_q. munfold.
  pose proof (base_encode_frame o a b) as H.
  destruct (SARSAAgent.encode hash o a b) as [[feats|e] b']; simpl in *; [|done].
  destruct (Np.take _ _); done.
Qed.

Lemma base_decide_frame u k o b :
  base_frame b (snd (SARSAAgent.decide hash u k o b)).
Proof.
  unfold SARSAAgent.decide. munfold. destruct (Qltb _ _); simpl.
  - apply base_frame_refl.
  - pose proof (for_each_state
      (fun action => SARSAAgent.get_q hash o (Some action)) base_frame
      (range (SARSAAgent.action_n b)) b base_frame_refl base_frame_trans
      (fun x s => base_get_q_frame o (Some x) s)) as H.
    destruct (for_each _ _ _) as [[qs|e] b']; done.
Qed.

(** With the right shapes [encode] is the coder's call on the
    normalised observation. *)
Lemma base_encode_run o a b :
  length o = length (SARSAAgent.obs_low b) ->
  length (SARSAAgent.obs_scale b) = length (SARSAAgent.obs_low b) ->
  SARSAAgent.encode hash o a b =
  (fst (TileCoder.__call__ hash (normalize b o) [a] (SARSAAgent.encoder b)),
   SARSAAgent.set_encoder
     (snd (TileCoder.__call__ hash (normalize b o) [a] (SARSAAgent.encoder b))) b).
Proof.
  intros Ho Hs. unfold SARSAAgent.encode, Np.subtract, Np.divide. munfold.
  rewrite broadcast_same by done. rewrite broadcast_same.
  - fold (normalize b o). by destruct (TileCoder.__call__ _ _ _ _).
  - rewrite length_zip_with. lia.
Qed.

Lemma base_get_q_run o a b feats tc' :
  length o = length (SARSAAgent.obs_low b) ->
  length (SARSAAgent.obs_scale b) = length (SARSAAgent.obs_low b) ->
  TileCoder.__call__ hash (normalize b o) [a] (SARSAAgent.encoder b) = (Ok feats, tc') ->
  Forall (fun i => (0 <= i < Z.of_nat (length (SARSAAgent.w b)))%Z) feats ->
  SARSAAgent.get_q hash o a b =
  (Ok (q_value (SARSAAgent.w b) feats), SARSAAgent.set_encoder tc' b).
Proof.
  intros Ho Hs Hcall Hfeats. unfold SARSAAgent.get_q. munfold.
  rewrite base_encode_run, Hcall by done. simpl.
  by rewrite take_in_range.
Qed.


(** A change of the base object that only extends the coder is a step of
    the agent. *)
Lemma agent_step_set_super s b' :
  base_frame (SARSALambdaAgent.super s) b' ->
  agent_step s (SARSALambdaAgent.set_super b' s).
Proof.
  intros [Heq Hext Hinv]. split; simpl.
  - done.
  - unfold SARSALambdaAgent.gamma. simpl. by rewrite Heq.
  - intros [We Wf Ww Wz Wo Ws].
    unfold SARSALambdaAgent.encoder, SARSALambdaAgent.w in *.
    split; unfold SARSALambdaAgent.encoder, SARSALambdaAgent.w; simpl.
    + auto.
    + by rewrite (tc_ext_features _ _ Hext).
    + rewrite (tc_ext_features _ _ Hext), Heq. done.
    + rewrite Heq. done.
    + rewrite Heq. done.
    + rewrite Heq. done.
  - done.
Qed.

Lemma agent_step_set_z s v :
  length v = length (SARSALambdaAgent.z s) ->
  (forall P : Q -> Prop,
     P 0%Q -> P 1%Q ->
     (forall x, P x ->
        P (x * (SARSALambdaAgent.gamma s * SARSALambdaAgent.lambd s))%Q) ->
     Forall P (SARSALambdaAgent.z s) -> Forall P v) ->
  agent_step s (SARSALambdaAgent.set_z v s).
Proof.
  intros Hlen HP. split; simpl; [done | done | | done].
  intros [We Wf Ww Wz Wo Ws].
  unfold SARSALambdaAgent.encoder, SARSALambdaAgent.w in *.
  split; unfold SARSALambdaAgent.encoder, SARSALambdaAgent.w; simpl; auto.
  congruence.
Qed.

Lemma agent_step_set_w s v :
  length v = length (SARSALambdaAgent.w s) ->
  agent_step s (SARSALambdaAgent.set_w v s).
Proof.
  intros Hlen. split; simpl; [done | done | | done].
  intros [We Wf Ww Wz Wo Ws].
  unfold SARSALambdaAgent.encoder, SARSALambdaAgent.w in *.
  split; unfold SARSALambdaAgent.encoder, SARSALambdaAgent.w; simpl; auto; congruence.
Qed.

Lemma agent_step_set_epsilon s e :
  agent_step s (SARSALambdaAgent.set_epsilon e s).
Proof.
  split; simpl; [done | done | | done].
  intros [We Wf Ww Wz Wo Ws]. by split.
Qed.

Lemma encode_step o a : steps_by agent_step (SARSALambdaAgent.encode hash o a).
Proof.
  apply (steps_zoom _ base_frame); [apply agent_step_set_super|].
  intros b. apply base_encode_frame.
Qed.

Lemma get_q_step o a : steps_by agent_step (SARSALambdaAgent.get_q hash o a).
Proof.
  apply (steps_zoom _ base_frame); [apply agent_step_set_super|].
  intros b. apply base_get_q_frame.
Qed.

Lemma decide_step u k o : steps_by agent_step (SARSALambdaAgent.decide hash u k o).
Proof.
  apply (steps_zoom _ base_frame); [apply agent_step_set_super|].
  intros b. apply base_decide_frame.
Qed.

Lemma learn_step o a r o' d a' :
  steps_by agent_step (SARSALambdaAgent.learn hash o a r o' d a').
Proof.
  unfold SARSALambdaAgent.learn.
  apply steps_bind; [apply _ | |].
  { destruct d; simpl negb; cbv iota; [apply steps_ret; apply _|].
    apply steps_bind; [apply _|apply steps_gets; apply _|intros g].
    apply steps_bind; [apply _|apply get_q_step|intros q_next].
    apply steps_bind; [apply _| |intros _].
    { apply steps_modify. intros s. apply agent_step_set_z.
      - unfold Np.imul. by rewrite length_map.
      - intros P _ _ Hd Hz. unfold Np.imul. rewrite Forall_map.
        eapply Forall_impl; [done|]. auto. }
    apply steps_bind; [apply _|apply encode_step|intros feats].
    apply steps_bind; [apply _| |intros _; apply steps_ret; apply _].
    apply steps_try_modify; [apply _|]. intros s s'. munfold.
    destruct (Np.put _ _ _) as [z'|] eqn:Hput; simpl; [|done].
    intros [= <-]. apply agent_step_set_z.
    - by apply put_length in Hput.
    - intros P _ H1 _ Hz. by eapply put_Forall. }
  intros u.
  apply steps_bind; [apply _|apply get_q_step|intros q].
  apply steps_bind; [apply _| |intros _].
  { apply steps_try_modify; [apply _|]. intros s s'. munfold.
    destruct (Np.iadd _ _) as [w'|] eqn:Hadd; simpl; [|done].
    intros [= <-]. apply agent_step_set_w. by apply iadd_length in Hadd. }
  destruct d; [|apply steps_ret; apply _].
  apply steps_modify. intros s. apply agent_step_set_z.
  - unfold Np.zeros_like. by rewrite length_replicate.
  - intros P H0 _ _ _. unfold Np.zeros_like. by apply Forall_replicate.
Qed.

Lemma after_step c s : agent_step s (after hash c s).
Proof.
  destruct c; simpl.
  - apply learn_step.
  - apply decide_step.
  - apply get_q_step.
  - apply encode_step.
  - apply agent_step_set_epsilon.
Qed.

Lemma run_step cs s : agent_step s (run hash cs s).
Proof.
  revert s. induction cs as [|c cs IH]; intros s; [reflexivity|].
  simpl. etrans; [apply after_step|apply IH].
Qed.

(** On a well-formed agent the coder returns in-range indices. *)
Lemma agent_encoding s o a :
  agent_wf s ->
  exists feats tc',
    TileCoder.__call__ hash (normalize (SARSALambdaAgent.super s) o) [a]
      (SARSALambdaAgent.encoder s) = (Ok feats, tc') /\
    Forall (fun i => (0 <= i < Z.of_nat (length (SARSALambdaAgent.w s)))%Z) feats /\
    tc_ext (SARSALambdaAgent.encoder s) tc' /\ tc_inv tc'.
Proof.
  intros [We Wf Ww Wz Wo Ws].
  destruct (call_total hash (normalize (SARSALambdaAgent.super s) o) [a]
              (SARSALambdaAgent.encoder s)) as (feats & Hok & _ & Hall); [done..|].
  pose proof (call_ext hash (normalize (SARSALambdaAgent.super s) o) [a]
                (SARSALambdaAgent.encoder s)) as Hext.
  pose proof (call_inv hash (normalize (SARSALambdaAgent.super s) o) [a]
                (SARSALambdaAgent.encoder s) We) as Hinv.
  destruct (TileCoder.__call__ _ _ _ _) as [r tc'] eqn:Hcall. simpl in *. subst r.
  exists feats, tc'. rewrite Ww. done.
Qed.

Lemma encode_at o a t feats tc' :
  obs_ok t o ->
  length (SARSAAgent.obs_scale (SARSALambdaAgent.super t))
  = length (SARSAAgent.obs_low (SARSALambdaAgent.super t)) ->
  TileCoder.__call__ hash (normalize (SARSALambdaAgent.super t) o) [a]
    (SARSALambdaAgent.encoder t) = (Ok feats, tc') ->
  SARSALambdaAgent.encode hash o a t = (Ok feats, with_encoder tc' t).
Proof.
  intros Ho Hs Hcall. unfold SARSALambdaAgent.encode.
  rewrite zoom_eq, base_encode_run by done.
  unfold SARSALambdaAgent.encoder in Hcall. by rewrite Hcall.
Qed.

Lemma get_q_at o a t feats tc' :
  obs_ok t o ->
  length (SARSAAgent.obs_scale (SARSALambdaAgent.super t))
  = length (SARSAAgent.obs_low (SARSALambdaAgent.super t)) ->
  TileCoder.__call__ hash (normalize (SARSALambdaAgent.super t) o) [a]
    (SARSALambdaAgent.encoder t) = (Ok feats, tc') ->
  Forall (fun i => (0 <= i < Z.of_nat (length (SARSALambdaAgent.w t)))%Z) feats ->
  SARSALambdaAgent.get_q hash o a t
  = (Ok (q_value (SARSALambdaAgent.w t) feats), with_encoder tc' t).
Proof.
  intros Ho Hs Hcall Hall. unfold SARSALambdaAgent.get_q.
  rewrite zoom_eq. by erewrite base_get_q_run.
Qed.

(** [learn] on a terminal transition. *)
Lemma learn_done_run s o a r o' a' :
  agent_wf s -> obs_ok s o ->
  exists feats tc',
    SARSALambdaAgent.get_q hash o a s
    = (Ok (q_value (SARSALambdaAgent.w s) feats), with_encoder tc' s) /\
    SARSALambdaAgent.learn hash o a r o' true a' s =
    (Ok tt,
     SARSALambdaAgent.set_z (Np.zeros_like (SARSALambdaAgent.z s))
       (SARSALambdaAgent.set_w
          (zip_with (fun wi zi =>
                       wi + SARSALambdaAgent.learning_rate s
                            * (r - q_value (SARSALambdaAgent.w s) feats) * zi)%Q
                    (SARSALambdaAgent.w s) (SARSALambdaAgent.z s))
          (with_encoder tc' s))).
Proof.
  intros Hwf Ho.
  destruct (agent_encoding s o a Hwf) as (feats & tc' & Hcall & Hall & Hext & Hinv).
  exists feats, tc'.
  assert (SARSALambdaAgent.get_q hash o a s
          = (Ok (q_value (SARSALambdaAgent.w s) feats), with_encoder tc' s)) as Hq
    by (apply get_q_at; auto; apply Hwf).
  split; [done|].
  unfold SARSALambdaAgent.learn. munfold. cbn [negb]. cbv beta iota.
  rewrite Hq. unfold try_modify. munfold.
  change (SARSALambdaAgent.w (with_encoder tc' s)) with (SARSALambdaAgent.w s).
  change (SARSALambdaAgent.z (with_encoder tc' s)) with (SARSALambdaAgent.z s).
  rewrite iadd_same.
  - simpl. by rewrite zip_with_scale.
  - unfold Np.scale. rewrite length_map. symmetry. apply Hwf.
Qed.

(** [learn] on a transition that is not terminal. *)
Lemma learn_run s o a r o' a' :
  agent_wf s -> obs_ok s o -> obs_ok s o' ->
  exists feats_next tc1 feats tc2,
    SARSALambdaAgent.get_q hash o' a' s
    = (Ok (q_value (SARSALambdaAgent.w s) feats_next), with_encoder tc1 s) /\
    SARSALambdaAgent.encode hash o a (with_encoder tc1 s)
    = (Ok feats, with_encoder tc2 s) /\
    SARSALambdaAgent.get_q hash o a (with_encoder tc1 s)
    = (Ok (q_value (SARSALambdaAgent.w s) feats), with_encoder tc2 s) /\
    Forall (fun i => (0 <= i < Z.of_nat (length (SARSALambdaAgent.w s)))%Z) feats /\
    let z' := foldl (fun b k => <[k := 1%Q]> b)
                (Np.imul (SARSALambdaAgent.z s)
                   (SARSALambdaAgent.gamma s * SARSALambdaAgent.lambd s))
                (map Z.to_nat feats) in
    let u := (r + SARSALambdaAgent.gamma s
                  * q_value (SARSALambdaAgent.w s) feats_next)%Q in
    SARSALambdaAgent.learn hash o a r o' false a' s =
    (Ok tt,
     SARSALambdaAgent.set_w
       (zip_with (fun wi zi =>
                    wi + SARSALambdaAgent.learning_rate s
                         * (u - q_value (SARSALambdaAgent.w s) feats) * zi)%Q
                 (SARSALambdaAgent.w s) z')
       (SARSALambdaAgent.set_z z' (with_encoder tc2 s))).
Proof.
  intros Hwf Ho Ho'.
  destruct (agent_encoding s o' a' Hwf) as (fn & tc1 & Hcall1 & Hall1 & Hext1 & Hinv1).
  assert (SARSALambdaAgent.get_q hash o' a' s
          = (Ok (q_value (SARSALambdaAgent.w s) fn), with_encoder tc1 s)) as Hq1
    by (apply get_q_at; auto; apply Hwf).
  assert (agent_wf (with_encoder tc1 s)) as Hwf1.
  { pose proof (get_q_step o' a' s) as Hstep. rewrite Hq1 in Hstep.
    by apply Hstep. }
  destruct (agent_encoding (with_encoder tc1 s) o a Hwf1)
    as (feats & tc2 & Hcall2 & Hall2 & Hext2 & Hinv2).
  change (SARSALambdaAgent.w (with_encoder tc1 s)) with (SARSALambdaAgent.w s) in Hall2.
  exists fn, tc1, feats, tc2.
  assert (SARSALambdaAgent.encode hash o a (with_encoder tc1 s)
          = (Ok feats, with_encoder tc2 s)) as He
    by (apply (encode_at o a (with_encoder tc1 s)); auto; apply Hwf).
  assert (SARSALambdaAgent.get_q hash o a (with_encoder tc1 s)
          = (Ok (q_value (SARSALambdaAgent.w s) feats), with_encoder tc2 s)) as Hq
    by (apply (get_q_at o a (with_encoder tc1 s)); auto; apply Hwf).
  split; [done|]. split; [done|]. split; [done|]. split; [done|].
  intros z' u.
  unfold SARSALambdaAgent.learn. munfold. cbn [negb]. cbv beta iota.
  rewrite Hq1. unfold try_modify. munfold.
  set (s2 := SARSALambdaAgent.set_z _ (with_encoder tc1 s)).
  rewrite (encode_at o a s2 feats tc2); [|done|apply Hwf|done].
  change (SARSALambdaAgent.z (with_encoder tc2 s2))
    with (Np.imul (SARSALambdaAgent.z s)
            (SARSALambdaAgent.gamma s * SARSALambdaAgent.lambd s)).
  rewrite put_in_range.
  2:{ unfold Np.imul. rewrite length_map, (wf_z _ Hwf). done. }
  simpl result_bind. cbv iota. fold z'.
  set (s4 := SARSALambdaAgent.set_z z' (with_encoder tc2 s2)).
  rewrite (get_q_at o a s4 feats tc2); [|done|apply Hwf| |done].
  2:{ apply (call_stable hash _ _ _ _ _ _ Hcall2). apply tc_ext_refl. }
  change (SARSALambdaAgent.w (with_encoder tc2 s4)) with (SARSALambdaAgent.w s).
  change (SARSALambdaAgent.z (with_encoder tc2 s4)) with z'.
  change (SARSALambdaAgent.learning_rate (with_encoder tc2 s4))
    with (SARSALambdaAgent.learning_rate s).
  rewrite iadd_same.
  - simpl. rewrite zip_with_scale. done.
  - unfold Np.scale, z', Np.imul.
    rewrite length_map, length_foldl_insert, length_map. symmetry. apply Hwf.
Qed.

Lemma agent_for_each_get_q o l s :
  for_each (fun action => get_q o (Some action)) l s =
  zoom SARSALambdaAgent.super SARSALambdaAgent.set_super
    (for_each (fun action => SARSAAgent.get_q hash o (Some action)) l) s.
Proof.
  rewrite zoom_for_each; [done | done | done | by intros []].
Qed.


(** Every agent reached from a construction on a sound environment is
    well formed. *)
Lemma run_wf env L F g lr eps lam s0 cs :
  env_ok env -> (1 <= F)%Z ->
  SARSALambdaAgent.__init__ env L F g lr eps lam = Ok s0 ->
  agent_wf (run hash cs s0).
Proof.
  intros Henv HF Hinit.
  destruct (init_wf env L F g lr eps lam Henv HF) as (s0' & Hinit' & Hwf).
  rewrite Hinit in Hinit'. injection Hinit' as <-.
  by apply (step_wf _ _ (run_step cs s0)).
Qed.

(** The codewords of a call end with its discrete inputs, and each is
    resolved to the index returned for its layer. *)
Lemma call_codewords floats ints tc feats tc' l :
  TileCoder.__call__ hash floats ints tc = (Ok feats, tc') ->
  (0 <= l < TileCoder.layers tc)%Z ->
  exists k cells,
    feats !! Z.to_nat l = Some k /\ length cells = length floats /\
    resolved hash tc' (Some l :: map Some cells ++ ints) k.
Proof.
  intros Hcall Hl. rewrite call_unfold, <- for_each_map in Hcall.
  apply for_each_get_feature_resolved in Hcall.
  set (scaled := map (fun f => f * inject_Z (TileCoder.layers tc)
                               * inject_Z (TileCoder.layers tc))%Q floats) in *.
  assert (map (TileCoder.codeword_of (TileCoder.layers tc) (Z.of_nat (length floats))
                 scaled ints) (range (TileCoder.layers tc)) !! Z.to_nat l
          = Some (TileCoder.codeword_of (TileCoder.layers tc) (Z.of_nat (length floats))
                    scaled ints l)) as Hcw.
  { change (map ?f ?l) with (f <$> l). unfold range.
    rewrite list_lookup_fmap, lookup_seqZ_lt by lia. simpl. do 2 f_equal. lia. }
  destruct (Forall2_lookup_l _ _ _ _ _ Hcall Hcw) as (k & Hk & Hres).
  exists k,
    (imap (fun i f =>
             int ((f + inject_Z ((1 + Z.of_nat (length floats) * Z.of_nat i) * l))
                  / inject_Z (TileCoder.layers tc))) scaled).
  split; [done|]. split.
  { rewrite length_imap. unfold scaled. by rewrite length_map. }
  unfold TileCoder.codeword_of in Hres.
  change (map Some ?l) with (Some <$> l). by rewrite fmap_imap.
Qed.

(** C1. Every [learn] on a well-formed agent returns, and with
    [u = reward] when [done] and
    [u = reward + gamma * get_q(observation_next, action_next)] otherwise,
    and [delta = u - get_q(observation, action)], both estimates read
    from the weights as they are at the call, it leaves
    [w[i] + learning_rate * delta * z[i]] at every index [i] of the weight
    vector, [z] being the traces after this call's decay and replacement
    (before the reset when [done]). *)
Theorem learn_td_update s o a r o' d a' :
  agent_wf s -> obs_ok s o -> (d = false -> obs_ok s o') ->
  exists q_next q s',
    (d = false -> fst (get_q o' a' s) = Ok q_next) /\
    fst (get_q o a (if d then s else snd (get_q o' a' s))) = Ok q /\
    SARSALambdaAgent.w (if d then s else snd (get_q o' a' s))
    = SARSALambdaAgent.w s /\
    learn o a r o' d a' s = (Ok tt, s') /\
    let u := (if d then r else r + SARSALambdaAgent.gamma s * q_next)%Q in
    let delta := (u - q)%Q in
    let z_used := if d then SARSALambdaAgent.z s else SARSALambdaAgent.z s' in
    length (SARSALambdaAgent.w s') = length (SARSALambdaAgent.w s) /\
    length z_used = length (SARSALambdaAgent.w s) /\
    forall i, (i < length (SARSALambdaAgent.w s))%nat ->
      nth i (SARSALambdaAgent.w s') 0%Q
      = (nth i (SARSALambdaAgent.w s) 0
         + SARSALambdaAgent.learning_rate s * delta * nth i z_used 0)%Q.
Proof.
  intros Hwf Ho Ho'. destruct d.
  - destruct (learn_done_run s o a r o' a' Hwf Ho) as (feats & tc' & Hq & Hl).
    exists 0%Q, (q_value (SARSALambdaAgent.w s) feats). eexists.
    split; [done|]. split; [by rewrite Hq|]. split; [done|]. split; [exact Hl|].
    cbv zeta. pose proof (wf_z _ Hwf) as Hz.
    change (SARSALambdaAgent.w (SARSALambdaAgent.set_z ?v (SARSALambdaAgent.set_w ?x ?t)))
      with x.
    split; [rewrite length_zip_with; lia|]. split; [done|].
    intros i Hi. by rewrite nth_zip_with.
  - destruct (learn_run s o a r o' a' Hwf Ho (Ho' eq_refl))
      as (fn & tc1 & feats & tc2 & Hq1 & He & Hq & Hall & Hl).
    exists (q_value (SARSALambdaAgent.w s) fn), (q_value (SARSALambdaAgent.w s) feats).
    eexists.
    split; [by rewrite Hq1|]. rewrite Hq1. simpl snd.
    split; [by rewrite Hq|]. split; [done|]. split; [exact Hl|].
    cbv zeta. pose proof (wf_z _ Hwf) as Hz.
    change (SARSALambdaAgent.w (SARSALambdaAgent.set_w ?x ?t)) with x.
    change (SARSALambdaAgent.z (SARSALambdaAgent.set_w ?x (SARSALambdaAgent.set_z ?v ?t)))
      with v.
    assert (length (foldl (fun b k => <[k := 1%Q]> b)
              (Np.imul (SARSALambdaAgent.z s)
                 (SARSALambdaAgent.gamma s * SARSALambdaAgent.lambd s))
              (map Z.to_nat feats)) = length (SARSALambdaAgent.w s)) as Hlen.
    { rewrite length_foldl_insert. unfold Np.imul. by rewrite length_map. }
    split; [rewrite length_zip_with; lia|]. split; [done|].
    intros i Hi. by rewrite nth_zip_with.
Qed.

(** C2. The life of the traces.  At construction [z] is all zeros.  A
    [learn] with [done = False] first multiplies every [z[i]] by
    [gamma * lambd] and then sets to exactly 1 each index that encoding
    [(observation, action)] returns, whether it occurs once or several
    times.  A [learn] with [done = True] leaves [z] all zeros, and resets
    it only after the weights were updated with the [z] of before. *)
Theorem trace_lifecycle :
  (forall env L F g lr eps lam s0,
     SARSALambdaAgent.__init__ env L F g lr eps lam = Ok s0 ->
     SARSALambdaAgent.z s0 = replicate (Z.to_nat F) 0%Q) /\
  (forall s o a r o' a',
     agent_wf s -> obs_ok s o -> obs_ok s o' ->
     exists feats s',
       fst (encode o a (snd (get_q o' a' s))) = Ok feats /\
       learn o a r o' false a' s = (Ok tt, s') /\
       length (SARSALambdaAgent.z s') = length (SARSALambdaAgent.z s) /\
       forall i zi,
         SARSALambdaAgent.z s !! i = Some zi ->
         SARSALambdaAgent.z s' !! i =
         Some (if bool_decide (Z.of_nat i ∈ feats) then 1%Q
               else (zi * (SARSALambdaAgent.gamma s * SARSALambdaAgent.lambd s))%Q)) /\
  (forall s o a r o' a',
     agent_wf s -> obs_ok s o ->
     exists q s',
       fst (get_q o a s) = Ok q /\
       learn o a r o' true a' s = (Ok tt, s') /\
       SARSALambdaAgent.z s' = replicate (length (SARSALambdaAgent.z s)) 0%Q /\
       SARSALambdaAgent.w s' =
       zip_with (fun wi zi =>
                   wi + SARSALambdaAgent.learning_rate s * (r - q) * zi)%Q
                (SARSALambdaAgent.w s) (SARSALambdaAgent.z s)).
Proof.
  split; [|split].
  - intros env L F g lr eps lam s0 Hinit. by apply init_fields in Hinit as (? & _).
  - intros s o a r o' a' Hwf Ho Ho'.
    destruct (learn_run s o a r o' a' Hwf Ho Ho')
      as (fn & tc1 & feats & tc2 & Hq1 & He & Hq & Hall & Hl).
    exists feats. eexists. rewrite Hq1. simpl snd.
    split; [by rewrite He|]. split; [exact Hl|].
    change (SARSALambdaAgent.z (SARSALambdaAgent.set_w ?x (SARSALambdaAgent.set_z ?v ?t)))
      with v.
    split.
    { rewrite length_foldl_insert. unfold Np.imul. by rewrite length_map. }
    intros i zi Hzi.
    assert (Np.imul (SARSALambdaAgent.z s)
              (SARSALambdaAgent.gamma s * SARSALambdaAgent.lambd s) !! i
            = Some (zi * (SARSALambdaAgent.gamma s * SARSALambdaAgent.lambd s))%Q)
      as Hdecayed.
    { unfold Np.imul.
      change (map ?f (SARSALambdaAgent.z s)) with (f <$> SARSALambdaAgent.z s).
      by rewrite list_lookup_fmap, Hzi. }
    rewrite lookup_foldl_insert, Hdecayed.
    rewrite (bool_decide_ext _ (Z.of_nat i ∈ feats)).
    + by destruct (bool_decide _).
    + apply elem_of_map_to_nat. eapply Forall_impl; [done|]. simpl. lia.
  - intros s o a r o' a' Hwf Ho.
    destruct (learn_done_run s o a r o' a' Hwf Ho) as (feats & tc' & Hq & Hl).
    exists (q_value (SARSALambdaAgent.w s) feats). eexists.
    split; [by rewrite Hq|]. split; [exact Hl|]. done.
Qed.

(** C10. A [learn] with [done = True] skips the decay-and-set branch:
    the weights are updated with the traces exactly as they were at the
    call.  So when these are all zero, as on the first [learn] of an
    agent, every weight keeps its value whatever [delta] is, and [z] is
    all zeros afterwards. *)
Theorem terminal_learn_frame s o a r o' a' :
  agent_wf s -> obs_ok s o ->
  exists q s',
    fst (get_q o a s) = Ok q /\
    learn o a r o' true a' s = (Ok tt, s') /\
    SARSALambdaAgent.w s' =
    zip_with (fun wi zi =>
                wi + SARSALambdaAgent.learning_rate s * (r - q) * zi)%Q
             (SARSALambdaAgent.w s) (SARSALambdaAgent.z s) /\
    SARSALambdaAgent.z s' = replicate (length (SARSALambdaAgent.z s)) 0%Q /\
    (Forall (fun x => x == 0)%Q (SARSALambdaAgent.z s) ->
     Forall2 Qeq (SARSALambdaAgent.w s') (SARSALambdaAgent.w s)).
Proof.
  intros Hwf Ho.
  destruct (learn_done_run s o a r o' a' Hwf Ho) as (feats & tc' & Hq & Hl).
  exists (q_value (SARSALambdaAgent.w s) feats). eexists.
  split; [by rewrite Hq|]. split; [exact Hl|].
  split; [reflexivity|]. split; [reflexivity|].
  intros Hz. apply zip_with_zero_traces; [apply Hwf|done].
Qed.

(** C7, as the code has it.  [learn] never compares [action_next] with
    [done], and on a well-formed agent with well-shaped observations it
    returns whatever [action_next] is.  With [done = True] the argument
    is not read at all: the call does what the call without it does.
    With [done = False] the argument, an action or [None], is the
    discrete input of the encoding of [observation_next]: the codeword of
    every layer ends with it and is resolved like any other, staying in
    the table that [learn] leaves; the estimate read at the indices
    returned enters the target, and the weights are updated with it. *)
Theorem learn_accepts_any_action_next s o a r o' d a' :
  agent_wf s -> obs_ok s o -> (d = false -> obs_ok s o') ->
  fst (learn o a r o' d a' s) = Ok tt /\
  (d = true -> learn o a r o' d a' s = learn o a r o' d None s) /\
  (d = false ->
   exists feats_next tc1 q s',
     TileCoder.__call__ hash (normalize (SARSALambdaAgent.super s) o') [a']
       (SARSALambdaAgent.encoder s) = (Ok feats_next, tc1) /\
     (forall l, (0 <= l < TileCoder.layers (SARSALambdaAgent.encoder s))%Z ->
        exists k cells,
          feats_next !! Z.to_nat l = Some k /\ length cells = length o' /\
          resolved hash tc1 (Some l :: map Some cells ++ [a']) k) /\
     get_q o' a' s
     = (Ok (q_value (SARSALambdaAgent.w s) feats_next), with_encoder tc1 s) /\
     fst (get_q o a (with_encoder tc1 s)) = Ok q /\
     learn o a r o' d a' s = (Ok tt, s') /\
     tc_ext tc1 (SARSALambdaAgent.encoder s') /\
     forall i, (i < length (SARSALambdaAgent.w s))%nat ->
       nth i (SARSALambdaAgent.w s') 0%Q
       = (nth i (SARSALambdaAgent.w s) 0
          + SARSALambdaAgent.learning_rate s
            * (r + SARSALambdaAgent.gamma s
                   * q_value (SARSALambdaAgent.w s) feats_next - q)
            * nth i (SARSALambdaAgent.z s') 0)%Q).
Proof.
  intros Hwf Ho Ho'. destruct d.
  - split; [|split; [reflexivity|done]].
    by destruct (learn_done_run s o a r o' a' Hwf Ho) as (feats & tc' & _ & ->).
  - specialize (Ho' eq_refl).
    destruct (learn_run s o a r o' a' Hwf Ho Ho')
      as (fn & tc1 & feats & tc2 & Hq1 & He & Hq & Hall & Hl).
    cbv zeta in Hl. split; [by rewrite Hl|]. split; [done|]. intros _.
    destruct (agent_encoding s o' a' Hwf)
      as (fn' & tc1' & Hcall1 & Hall1 & Hext1 & Hinv1).
    assert (get_q o' a' s
            = (Ok (q_value (SARSALambdaAgent.w s) fn'), with_encoder tc1' s)) as Hq1'
      by (apply get_q_at; auto; apply Hwf).
    rewrite Hq1 in Hq1'. injection Hq1' as Hqv Htc.
    subst tc1'.
    assert (tc_ext tc1 tc2) as Hext2.
    { pose proof (base_encode_frame o a
                    (SARSALambdaAgent.super (with_encoder tc1 s))) as [_ Hx _].
      unfold SARSALambdaAgent.encode in He. rewrite zoom_eq in He.
      injection He as _ He. simpl in Hx. rewrite He in Hx. exact Hx. }
    exists fn', tc1, (q_value (SARSALambdaAgent.w s) feats). eexists.
    split; [exact Hcall1|]. split; [|split; [|split; [|split; [|split]]]].
    + intros l Hl'.
      destruct (call_codewords _ _ _ _ _ l Hcall1 Hl') as (k & cells & Hk & Hlen & Hres).
      exists k, cells. split; [done|]. split; [|done].
      rewrite Hlen. unfold normalize. rewrite !length_zip_with.
      pose proof (wf_obs _ Hwf). unfold obs_ok in Ho'. lia.
    + by rewrite Hq1, Hqv.
    + by rewrite Hq.
    + exact Hl.
    + exact Hext2.
    + intros i Hi. rewrite <- Hqv.
      change (SARSALambdaAgent.w (SARSALambdaAgent.set_w ?x ?t)) with x.
      change (SARSALambdaAgent.z (SARSALambdaAgent.set_w ?x (SARSALambdaAgent.set_z ?v ?t)))
        with v.
      rewrite nth_zip_with; [done| |done].
      rewrite length_foldl_insert. unfold Np.imul. rewrite length_map.
      symmetry. apply Hwf.
Qed.

(** C8. Traces are never negative: on an agent constructed with
    [gamma >= 0] and [0 <= lambd <= 1], after any sequence of calls
    (updates, and action selections and value estimates between them)
    every [z[i]] is at least 0. *)
Theorem traces_nonnegative env L F g lr eps lam s0 cs i x :
  SARSALambdaAgent.__init__ env L F g lr eps lam = Ok s0 ->
  (0 <= g)%Q -> (0 <= lam <= 1)%Q ->
  SARSALambdaAgent.z (run hash cs s0) !! i = Some x ->
  (0 <= x)%Q.
Proof.
  intros Hinit Hg [Hlam _] Hx.
  destruct (init_fields _ _ _ _ _ _ _ _ Hinit) as (Hz & _ & Hg0 & Hl0 & _).
  assert (Forall (fun y => 0 <= y)%Q (SARSALambdaAgent.z (run hash cs s0))) as Hall.
  { apply (step_traces _ _ (run_step cs s0)); [lra | lra | |].
    - intros y Hy. rewrite Hg0, Hl0.
      apply Qmult_le_0_compat; [done|]. by apply Qmult_le_0_compat.
    - rewrite Hz. apply Forall_replicate. lra. }
  rewrite Forall_lookup in Hall. by eapply Hall.
Qed.

(** C9. Traces never exceed 1: on an agent constructed with
    [0 <= gamma * lambd <= 1], after any sequence of calls every [z[i]]
    is at most 1. *)
Theorem traces_at_most_one env L F g lr eps lam s0 cs i x :
  SARSALambdaAgent.__init__ env L F g lr eps lam = Ok s0 ->
  (0 <= g * lam <= 1)%Q ->
  SARSALambdaAgent.z (run hash cs s0) !! i = Some x ->
  (x <= 1)%Q.
Proof.
  intros Hinit [Hlo Hhi] Hx.
  destruct (init_fields _ _ _ _ _ _ _ _ Hinit) as (Hz & _ & Hg0 & Hl0 & _).
  assert (Forall (fun y => y <= 1)%Q (SARSALambdaAgent.z (run hash cs s0))) as Hall.
  { apply (step_traces _ _ (run_step cs s0)); [lra | lra | |].
    - intros y Hy. rewrite Hg0, Hl0.
      generalize dependent (g * lam)%Q. intros c Hlo Hhi. nra.
    - rewrite Hz. apply Forall_replicate. lra. }
  rewrite Forall_lookup in Hall. by eapply Hall.
Qed.


End AgentFacts.

(** ** The statements at work on the sample agent *)

(** C7, as stated, fails: neither a missing [action_next] with
    [done = False] nor a present one with [done = True] raises. *)
Lemma learn_contract_not_enforced :
  fst (SARSALambdaAgent.learn sample_hash sample_obs (Some 1%Z) (-1)%Q
         sample_obs_next false None sample_agent) = Ok tt /\
  fst (SARSALambdaAgent.learn sample_hash sample_obs (Some 1%Z) (-1)%Q
         sample_obs_next true (Some 2%Z) sample_agent) = Ok tt.
Proof. split; vm_compute; reflexivity. Qed.

(** C3, as stated, fails.  For the float just below a quarter and two
    layers the exact quotient of layer 1 is below 1, so that the stated
    codeword is [(1, 0)]; the sum [0.9999999999999999 + 1] rounds to 2,
    and the code resolves [(1, 1)].  For the float just below five ninths
    and three layers the stated codeword of layer 1 is [(1, 1)], in exact
    arithmetic and also in binary64 when the value is scaled by [layers]
    squared in one product; the code, which multiplies by [layers] twice,
    gets 5 for the scaled value and resolves [(1, 2)]. *)
Lemma codeword_is_not_the_exact_floor :
  (unit_float sample_float /\
   spec_codeword 2 [Binary64.to_Q sample_float] [] 1 = [Some 1%Z; Some 0%Z] /\
   TileCoder.codebook
     (snd (TileCoder64.__call__ sample_hash [sample_float] [] (TileCoder.__init__ 2 8)))
   = {[ [Some 0%Z; Some 0%Z] := 0%Z; [Some 1%Z; Some 1%Z] := 1%Z ]}) /\
  (unit_float sample_float_ninths /\
   spec_codeword 3 [Binary64.to_Q sample_float_ninths] [] 1 = [Some 1%Z; Some 1%Z] /\
   Binary64.floor
     (Binary64.div
        (Binary64.add (Binary64.mul sample_float_ninths (Binary64.of_Z (3 * 3)))
                      (Binary64.of_Z ((1 + 1 * 0) * 1)))
        (Binary64.of_Z 3)) = 1%Z /\
   TileCoder.codebook
     (snd (TileCoder64.__call__ sample_hash [sample_float_ninths] []
             (TileCoder.__init__ 3 8)))
   = {[ [Some 0%Z; Some 1%Z] := 0%Z; [Some 1%Z; Some 2%Z] := 1%Z;
        [Some 2%Z; Some 2%Z] := 2%Z ]}).
Proof.
  split; (split; [by vm_compute|]); (split; [by vm_compute|]); [by vm_compute|].
  split; by vm_compute.
Qed.

(** C3 as amended, at the same float. *)
Lemma call_resolves_binary64_codewords_witness :
  Forall unit_float [sample_float] /\
  (forall l i f, (0 <= l < 2)%Z -> [sample_float] !! i = Some f ->
     Binary64.is_finite (cell64 2 (Z.of_nat (length [sample_float])) i f l) = true) /\
  exists feats tc',
    TileCoder64.__call__ sample_hash [sample_float] [Some 2%Z] (TileCoder.__init__ 2 8)
    = (Ok feats, tc') /\
    Z.of_nat (length feats) = 2%Z /\
    (forall l, (0 <= l < 2)%Z ->
       exists k, feats !! Z.to_nat l = Some k /\
                 resolved sample_hash tc' (codeword64 2 [sample_float] [Some 2%Z] l) k).
Proof.
  assert (Forall unit_float [sample_float]) as Hu by (repeat constructor).
  assert (forall l i f, (0 <= l < 2)%Z -> [sample_float] !! i = Some f ->
     Binary64.is_finite (cell64 2 (Z.of_nat (length [sample_float])) i f l) = true) as Hfin.
  { intros l i f Hl Hi. destruct i as [|i]; [|done]. injection Hi as <-.
    assert (l = 0 \/ l = 1)%Z as [-> | ->] by lia; reflexivity. }
  split; [exact Hu|]. split; [exact Hfin|].
  destruct (call_resolves_binary64_codewords sample_hash 2 8 (TileCoder.__init__ 2 8)
              [sample_float] [Some 2%Z]) as (feats & tc' & Hcall & Hlen & Hres & _);
    [lia | lia | constructor | exact Hu | exact Hfin |].
  exists feats, tc'. auto.
Defined.

(** C4 on a full table: the indices come from the hash. *)
Lemma call_returns_layers_indices_witness :
  (1 <= 1)%Z /\ (0 <= 2)%Z /\ tc_reachable sample_hash 2 1 sample_full_coder /\
  tc_size sample_full_coder = TileCoder.features sample_full_coder /\
  exists feats,
    fst (TileCoder.__call__ sample_hash [(99 # 100)%Q] [Some 0%Z] sample_full_coder)
    = Ok feats /\
    Z.of_nat (length feats) = 2%Z /\
    Forall (fun i => (0 <= i < 1)%Z) feats.
Proof.
  assert (tc_reachable sample_hash 2 1 sample_full_coder) as Hr
    by (apply tc_steps_call, tc_steps_refl).
  split; [lia|]. split; [lia|]. split; [exact Hr|]. split; [reflexivity|].
  apply (call_returns_layers_indices sample_hash 2 1 sample_full_coder); [lia|lia|exact Hr].
Defined.

(** C5 from the empty one-slot table to the full one. *)
Lemma codebook_growth_witness :
  (0 <= 1)%Z /\
  tc_reachable sample_hash 2 1 (TileCoder.__init__ 2 1) /\
  tc_steps sample_hash (TileCoder.__init__ 2 1) sample_full_coder /\
  (tc_size (TileCoder.__init__ 2 1) <= tc_size sample_full_coder <= 1)%Z.
Proof.
  assert (tc_steps sample_hash (TileCoder.__init__ 2 1) sample_full_coder) as Hs
    by (apply tc_steps_call, tc_steps_refl).
  split; [lia|]. split; [apply tc_steps_refl|]. split; [exact Hs|].
  split.
  - apply (codebook_growth sample_hash 2 1 (TileCoder.__init__ 2 1) sample_full_coder);
      [lia|apply tc_steps_refl|exact Hs].
  - apply (codebook_growth sample_hash 2 1 sample_full_coder sample_full_coder);
      [lia|exact Hs|apply tc_steps_refl].
Defined.

(** C1 on the first update of the sample agent. *)
Lemma learn_td_update_witness :
  agent_wf sample_agent /\ obs_ok sample_agent sample_obs /\
  obs_ok sample_agent sample_obs_next /\
  exists s',
    SARSALambdaAgent.learn sample_hash sample_obs (Some 1%Z) (-1)%Q sample_obs_next
      false (Some 2%Z) sample_agent = (Ok tt, s') /\
    length (SARSALambdaAgent.w s') = length (SARSALambdaAgent.w sample_agent).
Proof.
  split; [apply sample_agent_wf|]. split; [reflexivity|]. split; [reflexivity|].
  destruct (learn_td_update sample_hash sample_agent sample_obs (Some 1%Z) (-1)%Q
              sample_obs_next false (Some 2%Z) sample_agent_wf eq_refl (fun _ => eq_refl))
    as (q_next & q & s' & _ & _ & _ & Hl & Hlen & _).
  exists s'. split; [exact Hl|exact Hlen].
Defined.

(** C2 on the first update of the sample agent. *)
Lemma trace_lifecycle_witness :
  agent_wf sample_agent /\ obs_ok sample_agent sample_obs /\
  obs_ok sample_agent sample_obs_next /\
  exists s',
    SARSALambdaAgent.learn sample_hash sample_obs (Some 1%Z) (-1)%Q sample_obs_next
      false (Some 2%Z) sample_agent = (Ok tt, s') /\
    length (SARSALambdaAgent.z s') = length (SARSALambdaAgent.z sample_agent).
Proof.
  split; [apply sample_agent_wf|]. split; [reflexivity|]. split; [reflexivity|].
  destruct (proj1 (proj2 (trace_lifecycle sample_hash)) sample_agent sample_obs
              (Some 1%Z) (-1)%Q sample_obs_next (Some 2%Z)
              sample_agent_wf eq_refl eq_refl)
    as (feats & s' & _ & Hl & Hlen & _).
  exists s'. split; [exact Hl|exact Hlen].
Defined.

(** C10 on a first update that is terminal: [delta] is not zero and the
    weights stay. *)
Lemma terminal_learn_frame_witness :
  agent_wf sample_agent /\ obs_ok sample_agent sample_obs /\
  exists q s',
    fst (SARSALambdaAgent.get_q sample_hash sample_obs (Some 1%Z) sample_agent) = Ok q /\
    ~ (-1 - q == 0)%Q /\
    SARSALambdaAgent.learn sample_hash sample_obs (Some 1%Z) (-1)%Q sample_obs_next
      true None sample_agent = (Ok tt, s') /\
    Forall2 Qeq (SARSALambdaAgent.w s') (SARSALambdaAgent.w sample_agent).
Proof.
  split; [apply sample_agent_wf|]. split; [reflexivity|].
  destruct (terminal_learn_frame sample_hash sample_agent sample_obs (Some 1%Z) (-1)%Q
              sample_obs_next None sample_agent_wf eq_refl)
    as (q & s' & Hq & Hl & _ & _ & Hw).
  exists q, s'. split; [exact Hq|]. split; [|split; [exact Hl|]].
  - assert (fst (SARSALambdaAgent.get_q sample_hash sample_obs (Some 1%Z) sample_agent)
            = Ok 0%Q) as Hq0 by (vm_compute; reflexivity).
    rewrite Hq in Hq0. injection Hq0 as ->. vm_compute. discriminate.
  - apply Hw. repeat constructor.
Defined.

(** C7 as amended, with no [action_next] on a transition that is not
    terminal: the codewords of the next observation end with [None], and
    are in the table afterwards. *)
Lemma learn_accepts_any_action_next_witness :
  agent_wf sample_agent /\ obs_ok sample_agent sample_obs /\
  obs_ok sample_agent sample_obs_next /\
  fst (SARSALambdaAgent.learn sample_hash sample_obs (Some 1%Z) (-1)%Q
         sample_obs_next false None sample_agent) = Ok tt /\
  TileCoder.codebook
    (SARSALambdaAgent.encoder
       (snd (SARSALambdaAgent.learn sample_hash sample_obs (Some 1%Z) (-1)%Q
               sample_obs_next false None sample_agent)))
    !! [Some 0%Z; Some 0%Z; Some 1%Z; None] = Some 0%Z /\
  exists feats_next tc1,
    TileCoder.__call__ sample_hash
      (normalize (SARSALambdaAgent.super sample_agent) sample_obs_next) [None]
      (SARSALambdaAgent.encoder sample_agent) = (Ok feats_next, tc1) /\
    forall l, (0 <= l < 2)%Z ->
      exists k cells,
        feats_next !! Z.to_nat l = Some k /\ length cells = 2%nat /\
        resolved sample_hash tc1 (Some l :: map Some cells ++ [None]) k.
Proof.
  split; [apply sample_agent_wf|]. split; [reflexivity|]. split; [reflexivity|].
  destruct (learn_accepts_any_action_next sample_hash sample_agent sample_obs (Some 1%Z)
              (-1)%Q sample_obs_next false None sample_agent_wf eq_refl
              (fun _ => eq_refl)) as (Hret & _ & Hnone).
  split; [exact Hret|]. split; [by vm_compute|].
  destruct (Hnone eq_refl) as (fn & tc1 & q & s' & Hcall & Hcw & _).
  exists fn, tc1. split; [exact Hcall|exact Hcw].
Defined.

(** C8 after two updates: the trace set by the first has decayed once. *)
Lemma traces_nonnegative_witness :
  (0 <= 1)%Q /\ (0 <= 9 # 10 <= 1)%Q /\
  exists x,
    SARSALambdaAgent.z (run sample_hash sample_calls sample_agent) !! 2%nat = Some x /\
    (x == 9 # 10)%Q /\ (0 <= x)%Q.
Proof.
  assert (0 <= 1)%Q as H1 by (vm_compute; discriminate).
  assert (0 <= 9 # 10 <= 1)%Q as H2 by (split; vm_compute; discriminate).
  split; [exact H1|]. split; [exact H2|].
  eexists. split; [vm_compute; reflexivity|]. split; [reflexivity|].
  eapply (traces_nonnegative sample_hash sample_env 2 10 1%Q (3 # 100)%Q (1 # 1000)%Q
            (9 # 10)%Q sample_agent sample_calls 2%nat);
    [reflexivity | exact H1 | exact H2 | vm_compute; reflexivity].
Defined.

(** C9 after two updates: the trace set by the second is 1. *)
Lemma traces_at_most_one_witness :
  (0 <= 1 * (9 # 10) <= 1)%Q /\
  exists x,
    SARSALambdaAgent.z (run sample_hash sample_calls sample_agent) !! 0%nat = Some x /\
    (x == 1)%Q /\ (x <= 1)%Q.
Proof.
  assert (0 <= 1 * (9 # 10) <= 1)%Q as H2 by (split; vm_compute; discriminate).
  split; [exact H2|].
  eexists. split; [vm_compute; reflexivity|]. split; [reflexivity|].
  eapply (traces_at_most_one sample_hash sample_env 2 10 1%Q (3 # 100)%Q (1 # 1000)%Q
            (9 # 10)%Q sample_agent sample_calls 0%nat);
    [reflexivity | exact H2 | vm_compute; reflexivity].
Defined.


(** * Further properties *)

Import Props.

(** ** The coder *)

Section TileCoderMore.
Variable hash : list (option Z) -> Z.
Abbreviation get_feature := (TileCoder.get_feature hash).
Abbreviation call := (TileCoder.__call__ hash).

(** While there is room every codeword that is resolved is in the
    table afterwards, under the index returned for it. *)
Lemma for_each_get_feature_entered cws : forall tc feats tc',
  (tc_size tc + Z.of_nat (length cws) <= TileCoder.features tc)%Z ->
  for_each get_feature cws tc = (Ok feats, tc') ->
  Forall2 (fun cw i => TileCoder.codebook tc' !! cw = Some i) cws feats.
Proof.
  induction cws as [|cw cws IH]; intros tc feats tc' Hroom.
  - simpl. unfold ret. intros [= <- <-]. constructor.
  - rewrite for_each_cons.
    destruct (get_feature cw tc) as [[i|e] tc1] eqn:Hcw; [|done].
    destruct (for_each get_feature cws tc1) as [[js|e] tc2] eqn:Hrest; [|done].
    intros [= <- <-].
    assert (tc_ext tc1 tc2) as H12.
    { replace tc2 with (snd (for_each get_feature cws tc1)) by (by rewrite Hrest).
      apply (for_each_state _ tc_ext); auto using tc_ext_refl, get_feature_ext.
      intros; by eapply tc_ext_trans. }
    simpl length in Hroom.
    assert (TileCoder.codebook tc1 !! cw = Some i /\
            (tc_size tc1 <= tc_size tc + 1)%Z /\
            TileCoder.features tc1 = TileCoder.features tc) as (Hin & Hsz & HF).
    { destruct (get_feature_cases hash cw tc)
        as [(j & Hj & Heq)|[(_ & Hfull & _)|(Hnone & _ & Heq)]];
        [| lia |]; rewrite Heq in Hcw; simplify_eq.
      - split; [done|]. split; [lia|done].
      - simpl. rewrite lookup_insert_eq. split; [done|].
        rewrite tc_size_insert by done. simpl. split; [lia|done]. }
    constructor.
    + eapply lookup_weaken; [done|apply H12].
    + apply (IH tc1); [lia|done].
Qed.

(** X2. While the table has room for one more entry per layer, the
    indices of one encoding are pairwise distinct. *)
Theorem call_indices_distinct floats ints tc :
  tc_inv tc ->
  (tc_size tc + TileCoder.layers tc <= TileCoder.features tc)%Z ->
  exists feats,
    fst (call floats ints tc) = Ok feats /\ NoDup feats.
Proof.
  intros Hinv Hroom.
  destruct (decide (TileCoder.layers tc <= 0)%Z) as [Hneg|Hpos].
  { exists []. rewrite call_unfold. unfold range. rewrite seqZ_nil by done.
    split; [done|constructor]. }
  assert (0 <= tc_size tc)%Z by (unfold tc_size; lia).
  destruct (call_total hash floats ints tc) as (feats & Hok & _); [lia|done|].
  pose proof (call_inv hash floats ints tc Hinv) as Hinv'.
  exists feats. split; [done|].
  destruct (call floats ints tc) as [r tc'] eqn:Hcall. simpl in *. subst r.
  rewrite call_unfold, <- for_each_map in Hcall.
  apply for_each_get_feature_entered in Hcall.
  2:{ rewrite length_map. unfold range. rewrite length_seqZ. lia. }
  assert (NoDup (map (TileCoder.codeword_of (TileCoder.layers tc)
                        (Z.of_nat (length floats))
                        (map (fun f => f * inject_Z (TileCoder.layers tc)
                                       * inject_Z (TileCoder.layers tc))%Q floats)
                        ints) (range (TileCoder.layers tc)))) as Hcws.
  { apply NoDup_fmap_2_strong; [|apply NoDup_seqZ].
    intros l1 l2 _ _. unfold TileCoder.codeword_of. simpl. by intros [= ->]. }
  revert Hcws Hcall. generalize (map (TileCoder.codeword_of (TileCoder.layers tc)
                        (Z.of_nat (length floats))
                        (map (fun f => f * inject_Z (TileCoder.layers tc)
                                       * inject_Z (TileCoder.layers tc))%Q floats)
                        ints) (range (TileCoder.layers tc))).
  intros cws Hcws Hall.
  induction Hall as [|cw i cws feats Hcw Hall IH]; [constructor|].
  apply NoDup_cons in Hcws as [Hnotin Hcws].
  constructor; [|by apply IH].
  intros Hi. apply list_elem_of_lookup in Hi as [k Hk].
  destruct (Forall2_lookup_r _ _ _ _ _ Hall Hk) as (cw' & Hcw' & Hlook).
  assert (cw = cw') as -> by (by eapply (tc_inv_inj _ Hinv')).
  apply Hnotin. by eapply list_elem_of_lookup_2.
Qed.

(** X1. An encoding can be repeated: after any further calls on the
    coder the same input gets the same indices, and asking again leaves
    the table as it is. *)
Theorem call_repeatable floats ints tc feats tc' tc'' :
  call floats ints tc = (Ok feats, tc') ->
  tc_steps hash tc' tc'' ->
  call floats ints tc'' = (Ok feats, tc'').
Proof.
  intros Hcall Hsteps. eapply (call_stable hash); [done|]. by apply (tc_steps_ext hash).
Qed.


End TileCoderMore.

(** ** The coder on binary64 floats: failure *)

Lemma tuple_of_raises {A B} (K : exn -> Prop) (g : nat -> A -> result B) xs : forall i e,
  (forall j x e, g j x = Raise e -> K e) ->
  tuple_of g i xs = Raise e -> K e.
Proof.
  induction xs as [|x xs IH]; intros i e Hg; [done|]. simpl.
  destruct (g i x) as [y|e'] eqn:Hx; simpl; [|intros [= <-]; eauto].
  destruct (tuple_of g (S i) xs) as [ys|e'] eqn:Hxs; simpl; [done|].
  intros [= <-]. eauto.
Qed.

Lemma tuple_of_returns {A B} (g : nat -> A -> result B) xs : forall i ys j x,
  tuple_of g i xs = Ok ys -> xs !! j = Some x ->
  exists y, g (i + j)%nat x = Ok y /\ ys !! j = Some y.
Proof.
  induction xs as [|x0 xs IH]; intros i ys j x; [done|]. simpl.
  destruct (g i x0) as [y0|e] eqn:Hx0; simpl; [|done].
  destruct (tuple_of g (S i) xs) as [ys'|e] eqn:Hxs; simpl; [|done].
  intros [= <-] Hj. destruct j as [|j]; simpl in Hj.
  - injection Hj as <-. rewrite Nat.add_0_r. eauto.
  - replace (i + S j)%nat with (S i + j)%nat by lia.
    destruct (IH (S i) ys' j x Hxs Hj) as (y & Hy & Hl). eauto.
Qed.

Lemma tuple_of_length {A B} (g : nat -> A -> result B) xs : forall i ys,
  tuple_of g i xs = Ok ys -> length ys = length xs.
Proof.
  induction xs as [|x xs IH]; intros i ys; simpl; [by intros [= <-]|].
  destruct (g i x) as [y|]; simpl; [|done].
  destruct (tuple_of g (S i) xs) as [ys'|] eqn:Hxs; simpl; [|done].
  intros [= <-]. simpl. f_equal. eauto.
Qed.

Lemma tuple_of_total {A B} (g : nat -> A -> result B) xs : forall i,
  (forall j x, xs !! j = Some x -> exists y, g (i + j)%nat x = Ok y) ->
  exists ys, tuple_of g i xs = Ok ys.
Proof.
  induction xs as [|x xs IH]; intros i H; [by exists []|]. simpl.
  destruct (H 0%nat x eq_refl) as (y & Hy). rewrite Nat.add_0_r in Hy. rewrite Hy.
  destruct (IH (S i)) as (ys & ->).
  - intros j x' Hj. replace (S i + j)%nat with (i + S j)%nat by lia. by apply H.
  - by exists (y :: ys).
Qed.

Lemma int_total x : Binary64.is_finite x = true -> exists n, Binary64.int x = Ok n.
Proof. destruct x; try done; simpl; eauto. Qed.

Lemma of_int_returns n x : Binary64.of_int n = Ok x -> x = Binary64.of_Z n.
Proof. unfold Binary64.of_int. destruct (Binary64.of_Z n); by intros [= <-]. Qed.

Lemma of_int_raises n e : Binary64.of_int n = Raise e -> e = OverflowError.
Proof. unfold Binary64.of_int. destruct (Binary64.of_Z n); by intros [= <-]. Qed.

Lemma int_returns x n : Binary64.int x = Ok n -> Binary64.is_finite x = true.
Proof. by destruct x. Qed.

Lemma int_raises x e :
  Binary64.int x = Raise e -> e = OverflowError \/ e = ValueError.
Proof. destruct x; intros [= <-]; auto. Qed.

Section TileCoder64More.
Variable hash : list (option Z) -> Z.
Abbreviation call64 := (TileCoder64.__call__ hash).
Abbreviation get_feature := (TileCoder.get_feature hash).

Lemma scaled_raises L f e : TileCoder64.scaled L f = Raise e -> float_error e.
Proof.
  unfold TileCoder64.scaled.
  destruct (Binary64.of_int L) as [n|e'] eqn:Hn; simpl; [done|].
  intros [= <-]. left. by eapply of_int_raises.
Qed.

Lemma cell_raises L dim l i f e :
  TileCoder64.cell L dim l i f = Raise e -> float_error e.
Proof.
  unfold TileCoder64.cell.
  destruct (Binary64.of_int ((1 + dim * Z.of_nat i) * l)) as [k|e'] eqn:Hk; simpl.
  2:{ intros [= <-]. left. by eapply of_int_raises. }
  destruct (Binary64.of_int L) as [n|e'] eqn:Hn; simpl.
  2:{ intros [= <-]. left. by eapply of_int_raises. }
  apply int_raises.
Qed.

Lemma codeword_of_raises L dim scaled ints l e :
  TileCoder64.codeword_of L dim scaled ints l = Raise e -> float_error e.
Proof.
  unfold TileCoder64.codeword_of.
  destruct (tuple_of _ 0 scaled) as [cells|e'] eqn:Hc; simpl; [done|].
  intros [= <-]. eapply (tuple_of_raises float_error); [|exact Hc].
  intros j x e0. apply cell_raises.
Qed.

Lemma layers_loop L dim scaled ints ls : forall tc r tc',
  (0 < TileCoder.features tc)%Z -> tc_inv tc ->
  for_each (fun layer =>
              codeword ← lift_result
                           (TileCoder64.codeword_of L dim scaled ints layer);
              TileCoder.get_feature hash codeword) ls tc = (r, tc') ->
  tc_ext tc tc' /\
  match r with
  | Ok _ => forall l, l ∈ ls ->
              exists cw, TileCoder64.codeword_of L dim scaled ints l = Ok cw
  | Raise e => float_error e
  end.
Proof.
  induction ls as [|l0 ls IH]; intros tc r tc' Hpos Hinv.
  - simpl. intros [= <- <-]. split; [apply tc_ext_refl|].
    intros l Hl. by apply elem_of_nil in Hl.
  - rewrite for_each_cons. munfold.
    destruct (TileCoder64.codeword_of L dim scaled ints l0) as [cw|e] eqn:Hcw.
    2:{ intros [= <- <-]. split; [apply tc_ext_refl|]. by eapply codeword_of_raises. }
    destruct (get_feature_total hash cw tc Hpos Hinv) as (k & Hk & _).
    pose proof (get_feature_ext hash cw tc) as Hext.
    pose proof (get_feature_inv hash cw tc Hinv) as Hinv1.
    destruct (TileCoder.get_feature hash cw tc) as [r0 tc1]. simpl in *. subst r0.
    destruct (for_each _ ls tc1) as [r1 tc2] eqn:Hrest.
    destruct (IH tc1 r1 tc2) as [Hext1 Hres];
      [by rewrite (tc_ext_features _ _ Hext)|done|done|].
    destruct r1 as [ys|e]; intros [= <- <-].
    + split; [by eapply tc_ext_trans|]. intros l Hl.
      apply elem_of_cons in Hl as [->|Hl]; eauto.
    + split; [by eapply tc_ext_trans|done].
Qed.

Lemma call64_eq floats ints tc :
  call64 floats ints tc =
  match tuple_of (fun _ f => TileCoder64.scaled (TileCoder.layers tc) f) 0 floats with
  | Ok scaled =>
      for_each (fun layer =>
                  codeword ← lift_result
                               (TileCoder64.codeword_of (TileCoder.layers tc)
                                  (Z.of_nat (length floats)) scaled ints layer);
                  TileCoder.get_feature hash codeword)
               (range (TileCoder.layers tc)) tc
  | Raise e => (Raise e, tc)
  end.
Proof.
  unfold TileCoder64.__call__. munfold.
  by destruct (tuple_of _ 0 floats).
Qed.

Lemma cell_total L dim l i f :
  Binary64.is_finite (cell64 L dim i f l) = true ->
  exists c, TileCoder64.cell L dim l i
              (Binary64.mul (Binary64.mul f (Binary64.of_Z L)) (Binary64.of_Z L))
            = Ok c.
Proof.
  intros Hfin. unfold cell64 in Hfin.
  pose proof (div_finite _ _ Hfin) as Hsum.
  apply add_finite in Hsum as [Hprod Hk].
  apply mul_finite in Hprod as [_ Hn].
  unfold TileCoder64.cell. rewrite !of_int_finite by done.
  by apply int_total.
Qed.

(** X9. What makes [__call__] fail.  On a table with at least one
    slot, a call on binary64 floats returns exactly when every coordinate
    of every layer is a finite float.  When one overflows to [inf] or is
    [nan] the call raises [OverflowError] or [ValueError], and nothing
    else; the table then keeps what the layers before have entered. *)
Theorem call64_fails_on_overflow L F tc floats ints :
  (1 <= F)%Z -> (0 <= L)%Z -> tc_reachable hash L F tc ->
  let dim := Z.of_nat (length floats) in
  ((exists feats, fst (call64 floats ints tc) = Ok feats) <->
   (forall l i f, (0 <= l < L)%Z -> floats !! i = Some f ->
      Binary64.is_finite (cell64 L dim i f l) = true)) /\
  (forall e, fst (call64 floats ints tc) = Raise e ->
             e = OverflowError \/ e = ValueError) /\
  tc_ext tc (snd (call64 floats ints tc)).
Proof.
  intros HF HL Hr dim. subst dim.
  destruct (tc_reachable_inv hash L F tc) as (Hinv & HLeq & HFeq); [lia|done|].
  rewrite call64_eq, HLeq. set (dim := Z.of_nat (length floats)).
  destruct (tuple_of (fun _ f => TileCoder64.scaled L f) 0 floats) as [scaled|e] eqn:Hs.
  2:{ simpl. split; [|split; [|apply tc_ext_refl]].
      - split; [by intros [? ?]|]. intros Hfin. exfalso.
        rewrite scaled_ok in Hs; [done|].
        intros Hne. destruct floats as [|f floats]; [done|].
        destruct (decide (L = 0%Z)) as [->|HLne]; [done|].
        assert (Binary64.is_finite (cell64 L dim 0 f 0%Z) = true)
          as H by (apply Hfin; [lia|done]).
        unfold cell64 in H. apply div_finite, add_finite in H as [H _].
        by apply mul_finite in H as [_ H].
      - intros e' [= <-]. eapply (tuple_of_raises float_error); [|exact Hs].
        intros j x e'. by apply scaled_raises. }
  assert (forall i f, floats !! i = Some f ->
            scaled !! i = Some (Binary64.mul (Binary64.mul f (Binary64.of_Z L))
                                  (Binary64.of_Z L))) as Hscaled.
  { intros i f Hi.
    destruct (tuple_of_returns _ _ _ _ i f Hs Hi) as (sf & Hsf & Hsi).
    unfold TileCoder64.scaled in Hsf.
    destruct (Binary64.of_int L) as [n|] eqn:Hn; [|done]. simpl in Hsf.
    injection Hsf as <-. by apply of_int_returns in Hn as ->. }
  set (body := fun layer =>
                 codeword ← lift_result
                              (TileCoder64.codeword_of L dim scaled ints layer);
                 TileCoder.get_feature hash codeword) in *.
  assert ((forall l i f, (0 <= l < L)%Z -> floats !! i = Some f ->
             Binary64.is_finite (cell64 L dim i f l) = true) ->
          exists feats, fst (for_each body (range L) tc) = Ok feats) as Htotal.
  { intros Hfin.
    destruct (for_each_total body
        (fun s => tc_inv s /\ TileCoder.features s = TileCoder.features tc)
        (fun _ => True) (range L) tc) as (feats & Hok & _); [|done|by exists feats].
    intros l s Hl [Hs' HF']. unfold range in Hl. apply elem_of_seqZ in Hl.
    destruct (tuple_of_total (TileCoder64.cell L dim l) scaled 0) as (cells & Hcells).
    { intros j x Hj.
      assert (exists f, floats !! j = Some f) as (f & Hf).
      { apply lookup_lt_is_Some. apply lookup_lt_Some in Hj.
        by rewrite <- (tuple_of_length _ _ _ _ Hs). }
      rewrite (Hscaled j f Hf) in Hj. injection Hj as <-.
      apply cell_total. apply Hfin; [lia|done]. }
    unfold body. munfold. unfold TileCoder64.codeword_of. rewrite Hcells. simpl.
    destruct (get_feature_total hash ((Some l :: map Some cells) ++ ints) s)
      as (k & Hk & _); [lia|done|].
    exists k. split; [done|]. split; [done|]. split.
    - by apply get_feature_inv.
    - rewrite <- HF'. apply get_feature_ext. }
  destruct (for_each body (range L) tc) as [r tc'] eqn:Hrun.
  destruct (layers_loop L dim scaled ints (range L) tc r tc') as [Hext Hres];
    [lia|done|exact Hrun|].
  cbn [fst snd] in *.
  split; [|split; [|exact Hext]].
  - split; [|exact Htotal].
    intros [feats ->]. intros l i f Hl Hi.
    destruct (Hres l) as (cw & Hcw); [unfold range; apply elem_of_seqZ; lia|].
    unfold TileCoder64.codeword_of in Hcw.
    destruct (tuple_of (TileCoder64.cell L dim l) 0 scaled) as [cells|] eqn:Hcells;
      [|done].
    destruct (tuple_of_returns _ _ _ _ i _ Hcells (Hscaled i f Hi)) as (c & Hc & _).
    simpl in Hc. unfold TileCoder64.cell in Hc.
    destruct (Binary64.of_int ((1 + dim * Z.of_nat i) * l)) as [k|] eqn:Hk; [|done].
    apply of_int_returns in Hk as ->. simpl in Hc.
    destruct (Binary64.of_int L) as [n|] eqn:Hn; [|done].
    apply of_int_returns in Hn as ->. simpl in Hc.
    by apply int_returns in Hc.
  - by intros e ->.
Qed.

Lemma layers_loop_returns L dim scaled ints ls : forall tc feats tc' l,
  for_each (fun layer =>
              codeword ← lift_result
                           (TileCoder64.codeword_of L dim scaled ints layer);
              TileCoder.get_feature hash codeword) ls tc = (Ok feats, tc') ->
  l ∈ ls ->
  exists cw, TileCoder64.codeword_of L dim scaled ints l = Ok cw /\
             head cw = Some (Some l).
Proof.
  induction ls as [|l0 ls IH]; intros tc feats tc' l Hrun Hl;
    [by apply elem_of_nil in Hl|].
  rewrite for_each_cons in Hrun. munfold.
  destruct (TileCoder64.codeword_of L dim scaled ints l0) as [cw|e] eqn:Hl0; [|done].
  destruct (TileCoder.get_feature hash cw tc) as [[k|e] tc1]; [|done].
  destruct (for_each _ ls tc1) as [[ks|e] tc2] eqn:Hrest; [|done].
  apply elem_of_cons in Hl as [->|Hl]; [|eauto].
  exists cw. split; [done|]. unfold TileCoder64.codeword_of in Hl0.
  destruct (tuple_of _ 0 scaled); [|done]. by injection Hl0 as <-.
Qed.

(** A call that returns has gone through one codeword per layer, each
    starting with its layer, and a call on the same input goes through
    the same codewords whatever the table holds. *)
Lemma call64_codewords floats ints tc feats tc' :
  call64 floats ints tc = (Ok feats, tc') ->
  exists cws,
    length cws = Z.to_nat (TileCoder.layers tc) /\
    (forall i cw, cws !! i = Some cw -> head cw = Some (Some (Z.of_nat i))) /\
    forall t, TileCoder.layers t = TileCoder.layers tc ->
              call64 floats ints t = for_each get_feature cws t.
Proof.
  rewrite call64_eq.
  destruct (tuple_of _ 0 floats) as [scaled|e] eqn:Hs; [|done].
  intros Hrun.
  pose proof (fun l => layers_loop_returns _ _ _ _ _ _ _ _ l Hrun) as Hcw.
  set (cw := fun l => match TileCoder64.codeword_of (TileCoder.layers tc)
                              (Z.of_nat (length floats)) scaled ints l with
                      | Ok c => c
                      | Raise _ => []
                      end).
  exists (map cw (range (TileCoder.layers tc))). split; [|split].
  - unfold range. by rewrite length_map, length_seqZ.
  - intros i c Hi. change (map ?f ?l) with (f <$> l) in Hi.
    rewrite list_lookup_fmap in Hi. unfold range in Hi.
    destruct (seqZ 0 (TileCoder.layers tc) !! i) as [l|] eqn:Hl; [|done].
    simpl in Hi. injection Hi as <-.
    destruct (Hcw l) as (c & Hc & Hhead);
      [unfold range; by eapply list_elem_of_lookup_2|].
    apply lookup_seqZ in Hl as [-> Hlt]. unfold cw. by rewrite Hc, Hhead.
  - intros t Ht. rewrite call64_eq, Ht, Hs.
    rewrite for_each_map. apply for_each_ext. intros l Hl.
    destruct (Hcw l Hl) as (c & Hc & _). unfold cw. by rewrite Hc.
Qed.

(** X14. What holds of the exact coder holds on binary64 floats too,
    whenever the call returns: it returns exactly [layers] indices, each
    of [[0, features)]; while the table has room for one more entry per
    layer they are pairwise distinct; and in every later state of the
    coder the same input gets the same indices and leaves the table as
    it is. *)
Theorem call64_indices L F tc floats ints feats tc' :
  (1 <= F)%Z -> tc_reachable hash L F tc ->
  call64 floats ints tc = (Ok feats, tc') ->
  length feats = Z.to_nat L /\
  Forall (fun k => (0 <= k < F)%Z) feats /\
  ((tc_size tc + L <= F)%Z -> NoDup feats) /\
  (forall tc'', tc_steps hash tc' tc'' ->
                call64 floats ints tc'' = (Ok feats, tc'')).
Proof.
  intros HF Hr Hcall.
  destruct (tc_reachable_inv hash L F tc) as (Hinv & HLeq & HFeq); [lia|done|].
  destruct (call64_codewords floats ints tc feats tc' Hcall) as (cws & Hlen & Hhead & Hsame).
  rewrite HLeq in Hlen.
  assert (for_each get_feature cws tc = (Ok feats, tc')) as Hrun
    by (by rewrite <- Hsame).
  pose proof (for_each_get_feature_resolved hash cws tc feats tc' Hrun) as Hres.
  assert (tc_ext tc tc') as Hext.
  { pose proof (for_each_get_feature_ext hash cws tc) as H. by rewrite Hrun in H. }
  assert (tc_inv tc') as Hinv'.
  { pose proof (for_each_state get_feature (fun s s' => tc_inv s -> tc_inv s') cws tc) as H.
    rewrite Hrun in H. apply H; auto. intros; by apply get_feature_inv. }
  split; [|split; [|split]].
  - apply Forall2_length in Hres. lia.
  - apply Forall_lookup. intros i k Hk.
    destruct (Forall2_lookup_r _ _ _ _ _ Hres Hk) as (cw & _ & [Hin|(_ & _ & Hmod)]).
    + apply Hinv' in Hin. pose proof (tc_inv_size _ Hinv').
      rewrite (tc_ext_features _ _ Hext), HFeq in *. lia.
    + rewrite (tc_ext_features _ _ Hext), HFeq in Hmod. unfold mod_ in Hmod.
      destruct (Z.eqb_spec F 0); [lia|]. injection Hmod as <-.
      apply Z.mod_pos_bound. lia.
  - intros Hroom.
    assert (NoDup cws) as Hnd.
    { apply NoDup_alt. intros i j cw Hi Hj.
      apply Hhead in Hi, Hj. rewrite Hi in Hj. injection Hj as Hj. lia. }
    apply (for_each_get_feature_entered hash) in Hrun.
    2:{ pose proof (tc_inv_size _ Hinv). rewrite HFeq in *. lia. }
    clear -Hrun Hnd Hinv'. induction Hrun as [|cw i cws feats Hcw Hall IH]; [constructor|].
    apply NoDup_cons in Hnd as [Hnotin Hnd]. constructor; [|by apply IH].
    intros Hi. apply list_elem_of_lookup in Hi as [k Hk].
    destruct (Forall2_lookup_r _ _ _ _ _ Hall Hk) as (cw' & Hcw' & Hlook).
    assert (cw = cw') as -> by (by eapply (tc_inv_inj _ Hinv')).
    apply Hnotin. by eapply list_elem_of_lookup_2.
  - intros tc'' Hsteps. apply (tc_steps_ext hash) in Hsteps.
    rewrite Hsame.
    + by eapply for_each_get_feature_stable.
    + rewrite (tc_ext_layers _ _ Hsteps). apply Hext.
Qed.

End TileCoder64More.

(** ** Estimating, deciding and learning *)

#[local] Instance agent_keeps_preorder : PreOrder agent_keeps.
Proof.
  split.
  - intros s. split; first [done | apply tc_ext_refl].
  - intros s1 s2 s3 [] []. split; try congruence. by eapply tc_ext_trans.
Qed.

#[local] Instance agent_reads_preorder : PreOrder agent_reads.
Proof.
  split.
  - intros s. split; [by destruct s as [[]]|apply tc_ext_refl].
  - intros s1 s2 s3 [E12 X12] [E23 X23]. split; [|by eapply tc_ext_trans].
    rewrite E23 at 1. rewrite E12. done.
Qed.

Lemma agent_reads_keeps s s' : agent_reads s s' -> agent_keeps s s'.
Proof. intros [-> Hext]. by split. Qed.

Lemma agent_reads_set_super s b' :
  base_frame (SARSALambdaAgent.super s) b' ->
  agent_reads s (SARSALambdaAgent.set_super b' s).
Proof.
  intros [Heq Hext _]. split; [|done].
  unfold with_encoder, SARSALambdaAgent.encoder. simpl. by rewrite <- Heq.
Qed.

Lemma broadcast_mismatch f (xs ys : list Q) :
  length xs <> length ys -> length xs <> 1%nat -> length ys <> 1%nat ->
  Np.broadcast f xs ys = Raise ValueError.
Proof.
  intros Hne Hx Hy. unfold Np.broadcast.
  destruct (Nat.eqb_spec (length xs) (length ys)); [done|].
  destruct xs as [|x [|x' xs]]; simpl in *; try done;
    destruct ys as [|y [|y' ys]]; simpl in *; done.
Qed.

Lemma foldl_plus_zeros (l : list Q) acc :
  Forall (fun x => x == 0)%Q l -> (foldl Qplus acc l == acc)%Q.
Proof.
  intros H. revert acc. induction H as [|x l Hx _ IH]; intros acc; simpl.
  - reflexivity.
  - rewrite IH, Hx. ring.
Qed.

Lemma q_value_zeros (w : list Q) feats :
  Forall (fun x => x == 0)%Q w -> (q_value w feats == 0)%Q.
Proof.
  intros Hw. unfold q_value, Np.sum. apply foldl_plus_zeros.
  rewrite Forall_map. apply Forall_forall. intros i _. simpl.
  destruct (nth_in_or_default (Z.to_nat i) w 0%Q) as [Hin| ->]; [|reflexivity].
  rewrite Forall_forall in Hw. apply Hw. by apply list_elem_of_In.
Qed.

Lemma argmax_zeros qs :
  qs <> [] -> Forall (fun x => x == 0)%Q qs -> Np.argmax qs = Ok 0%Z.
Proof.
  destruct qs as [|x l]; [done|]. intros _ H.
  apply Forall_cons in H as [Hx Hl]. simpl. f_equal.
  generalize 1%Z as i. induction Hl as [|y l Hy _ IH]; intros i; simpl; [done|].
  assert (Qltb x y = false) as -> by (apply Qltb_false; rewrite Hx, Hy; apply Qle_refl).
  apply IH.
Qed.

Lemma set_super_id s : SARSALambdaAgent.set_super (SARSALambdaAgent.super s) s = s.
Proof. by destruct s. Qed.

Lemma agent_keeps_set_z s v :
  length v = length (SARSALambdaAgent.z s) ->
  agent_keeps s (SARSALambdaAgent.set_z v s).
Proof. intros Hlen. split; first [done | apply tc_ext_refl]. Qed.

Lemma agent_keeps_set_w s v :
  length v = length (SARSALambdaAgent.w s) ->
  agent_keeps s (SARSALambdaAgent.set_w v s).
Proof. intros Hlen. split; first [done | apply tc_ext_refl]. Qed.

Section AgentMore.
Variable hash : list (option Z) -> Z.
Abbreviation get_q := (SARSALambdaAgent.get_q hash).
Abbreviation encode := (SARSALambdaAgent.encode hash).
Abbreviation learn := (SARSALambdaAgent.learn hash).

Lemma encode_reads o a s : agent_reads s (snd (encode o a s)).
Proof.
  unfold SARSALambdaAgent.encode. rewrite zoom_eq. simpl.
  apply agent_reads_set_super, base_encode_frame.
Qed.

Lemma get_q_reads o a s : agent_reads s (snd (get_q o a s)).
Proof.
  unfold SARSALambdaAgent.get_q. rewrite zoom_eq. simpl.
  apply agent_reads_set_super, base_get_q_frame.
Qed.

Lemma decide_reads u k o s :
  agent_reads s (snd (SARSALambdaAgent.decide hash u k o s)).
Proof.
  unfold SARSALambdaAgent.decide. rewrite zoom_eq. simpl.
  apply agent_reads_set_super, base_decide_frame.
Qed.

(** X4. Estimating and deciding only read the agent: whether they
    return or raise, [encode], [get_q] and [decide] leave the weights,
    the traces and the whole configuration as they were; they can only
    add entries to the coder's table. *)
Theorem estimates_only_read u k o a s :
  agent_reads s (snd (encode o a s)) /\
  agent_reads s (snd (get_q o a s)) /\
  agent_reads s (snd (SARSALambdaAgent.decide hash u k o s)).
Proof. auto using encode_reads, get_q_reads, decide_reads. Qed.

Lemma learn_keeps o a r o' d a' : steps_by agent_keeps (learn o a r o' d a').
Proof.
  unfold SARSALambdaAgent.learn.
  apply steps_bind; [apply _ | |].
  { destruct d; simpl negb; cbv iota; [apply steps_ret; apply _|].
    apply steps_bind; [apply _|apply steps_gets; apply _|intros g].
    apply steps_bind; [apply _| |intros q_next].
    { intros s. apply agent_reads_keeps, get_q_reads. }
    apply steps_bind; [apply _| |intros _].
    { apply steps_modify. intros s. apply agent_keeps_set_z.
      unfold Np.imul. by rewrite length_map. }
    apply steps_bind; [apply _| |intros feats].
    { intros s. apply agent_reads_keeps, encode_reads. }
    apply steps_bind; [apply _| |intros _; apply steps_ret; apply _].
    apply steps_try_modify; [apply _|]. intros s s'. munfold.
    destruct (Np.put _ _ _) as [z'|] eqn:Hput; simpl; [|done].
    intros [= <-]. apply agent_keeps_set_z. by apply put_length in Hput. }
  intros u.
  apply steps_bind; [apply _| |intros q].
  { intros s. apply agent_reads_keeps, get_q_reads. }
  apply steps_bind; [apply _| |intros _].
  { apply steps_try_modify; [apply _|]. intros s s'. munfold.
    destruct (Np.iadd _ _) as [w'|] eqn:Hadd; simpl; [|done].
    intros [= <-]. apply agent_keeps_set_w. by apply iadd_length in Hadd. }
  destruct d; [|apply steps_ret; apply _].
  apply steps_modify. intros s. apply agent_keeps_set_z.
  unfold Np.zeros_like. by rewrite length_replicate.
Qed.

(** X5. [learn] never touches the configuration: whether it returns or
    raises, the number of actions, the observation bounds, [gamma],
    [learning_rate], [epsilon] and [lambd] are as before, [w] and [z]
    have the lengths they had, and the coder's table is only extended. *)
Theorem learn_keeps_configuration o a r o' d a' s :
  agent_keeps s (snd (learn o a r o' d a' s)).
Proof. apply learn_keeps. Qed.

(** X6. With no action to choose from [decide] raises [ValueError]
    on either branch, and leaves the agent as it is. *)
Theorem decide_without_actions u k o s :
  (SARSALambdaAgent.action_n s <= 0)%Z ->
  SARSALambdaAgent.decide hash u k o s = (Raise ValueError, s).
Proof.
  intros Hn. unfold SARSALambdaAgent.decide. rewrite zoom_eq.
  unfold SARSAAgent.decide, SARSALambdaAgent.action_n in *. munfold.
  destruct (Qltb u _); simpl.
  - unfold Np.randint. destruct (Z.leb_spec (SARSAAgent.action_n
      (SARSALambdaAgent.super s)) 0); [|lia]. simpl. by rewrite set_super_id.
  - unfold range. rewrite seqZ_nil by done. simpl. by rewrite set_super_id.
Qed.

(** X7. An observation with the wrong number of components (and not
    one that numpy would broadcast) is refused with [ValueError] before
    anything is touched: by [encode], by [get_q], and by [learn] when it
    is the next observation of a transition that is not terminal. *)
Theorem wrong_shape_raises o a r o' a' s :
  length o <> length (SARSAAgent.obs_low (SARSALambdaAgent.super s)) ->
  length o <> 1%nat ->
  length (SARSAAgent.obs_low (SARSALambdaAgent.super s)) <> 1%nat ->
  encode o a s = (Raise ValueError, s) /\
  get_q o a s = (Raise ValueError, s) /\
  learn o' a' r o false a s = (Raise ValueError, s).
Proof.
  intros Hne Ho Hl.
  assert (SARSAAgent.encode hash o a (SARSALambdaAgent.super s)
          = (Raise ValueError, SARSALambdaAgent.super s)) as He.
  { unfold SARSAAgent.encode, Np.subtract. munfold.
    by rewrite broadcast_mismatch. }
  assert (get_q o a s = (Raise ValueError, s)) as Hq.
  { unfold SARSALambdaAgent.get_q. rewrite zoom_eq.
    unfold SARSAAgent.get_q. munfold. rewrite He. simpl. by rewrite set_super_id. }
  split; [|split; [done|]].
  - unfold SARSALambdaAgent.encode. rewrite zoom_eq, He. simpl.
    by rewrite set_super_id.
  - unfold SARSALambdaAgent.learn. munfold. cbn [negb]. cbv beta iota.
    by rewrite Hq.
Qed.

Lemma for_each_get_q_zeros o l s :
  agent_wf s -> obs_ok s o -> Forall (fun x => x == 0)%Q (SARSALambdaAgent.w s) ->
  exists qs,
    fst (for_each (fun action => get_q o (Some action)) l s) = Ok qs /\
    length qs = length l /\ Forall (fun q => q == 0)%Q qs.
Proof.
  intros Hwf Ho Hw.
  destruct (for_each_total (fun action => get_q o (Some action))
              (fun t => agent_wf t /\ obs_ok t o /\
                        Forall (fun x => x == 0)%Q (SARSALambdaAgent.w t))
              (fun q => q == 0)%Q l s)
    as (qs & Hqs & Hlen & Hall & _); [|done|by exists qs].
  intros x t _ (Hwft & Hot & Hwt).
  destruct (agent_encoding hash t o (Some x) Hwft) as (feats & tc' & Hc & Hall & _).
  assert (agent_wf (snd (get_q o (Some x) t))) as Hwf'
    by (by apply (get_q_step hash o (Some x) t)).
  assert (get_q o (Some x) t
          = (Ok (q_value (SARSALambdaAgent.w t) feats), with_encoder tc' t)) as Hq
    by (apply get_q_at; [done|apply Hwft|done|done]).
  rewrite Hq in *. eexists. split; [done|]. split; [by apply q_value_zeros|].
  split; [done|]. split; done.
Qed.

(** X8. While all weights are zero, as on a new agent, the greedy
    choice is action 0: every estimate is 0 and the tie goes to the
    first. *)
Theorem decide_on_zero_weights s u k o :
  agent_wf s -> obs_ok s o -> (0 < SARSALambdaAgent.action_n s)%Z ->
  (SARSALambdaAgent.epsilon s == 0)%Q -> (0 <= u)%Q ->
  Forall (fun x => x == 0)%Q (SARSALambdaAgent.w s) ->
  fst (SARSALambdaAgent.decide hash u k o s) = Ok 0%Z.
Proof.
  intros Hwf Ho Hn Heps Hu Hw.
  destruct (for_each_get_q_zeros o (range (SARSALambdaAgent.action_n s)) s Hwf Ho Hw)
    as (qs & Hqs & Hlen & Hzeros).
  unfold range in Hlen. rewrite length_seqZ in Hlen.
  rewrite agent_for_each_get_q, zoom_eq in Hqs. simpl in Hqs.
  unfold SARSALambdaAgent.decide. rewrite zoom_eq. simpl.
  unfold SARSAAgent.decide, SARSALambdaAgent.action_n in *. munfold.
  assert (Qltb u (SARSAAgent.epsilon (SARSALambdaAgent.super s)) = false) as ->.
  { apply Qltb_false. unfold SARSALambdaAgent.epsilon in Heps. rewrite Heps. done. }
  destruct (for_each _ _ (SARSALambdaAgent.super s)) as [r b']. simpl in *. subst r.
  rewrite argmax_zeros; [done| |done]. intros ->. simpl in Hlen. lia.
Qed.

End AgentMore.

(** ** The plain update of the base class *)

Lemma lookup_foldl_insert_at {A} (f : nat -> A) (ks : list nat) (a : list A) (i : nat) :
  foldl (fun b k => <[k := f k]> b) a ks !! i =
  if bool_decide (i ∈ ks) then (fun _ => f i) <$> a !! i else a !! i.
Proof.
  revert a. induction ks as [|k ks IH]; intros a.
  - case_bool_decide as H; [by apply elem_of_nil in H|done].
  - change (foldl _ a (k :: ks)) with (foldl (fun b k => <[k := f k]> b) (<[k := f k]> a) ks).
    rewrite IH. destruct (decide (i = k)) as [->|Hne].
    + rewrite (bool_decide_eq_true_2 (k ∈ k :: ks)) by left.
      destruct (decide (k < length a)%nat).
      * rewrite list_lookup_insert_eq by done.
        destruct (a !! k) eqn:Hk; [by destruct (bool_decide _)|].
        apply lookup_ge_None in Hk. lia.
      * rewrite list_insert_ge by lia.
        assert (a !! k = None) as -> by (apply lookup_ge_None; lia).
        by destruct (bool_decide _).
    + rewrite list_lookup_insert_ne by done.
      apply (f_equal (fun b : bool => if b then _ else _)).
      apply bool_decide_ext. rewrite elem_of_cons. tauto.
Qed.

Lemma length_foldl_insert_at {A} (f : nat -> A) (ks : list nat) (a : list A) :
  length (foldl (fun b k => <[k := f k]> b) a ks) = length a.
Proof.
  revert a. induction ks as [|k ks IH]; intros a; [done|].
  simpl. by rewrite IH, length_insert.
Qed.

Lemma iadd_at_in_range a idx c :
  Forall (fun i => (0 <= i < Z.of_nat (length a))%Z) idx ->
  Np.iadd_at a idx c
  = Ok (foldl (fun b k => <[k := (nth k a 0 + c)%Q]> b) a (map Z.to_nat idx)).
Proof. intros H. unfold Np.iadd_at. by rewrite indices_in_range. Qed.

Lemma base_wf_lift b lam zs :
  base_wf b -> length zs = length (SARSAAgent.w b) ->
  agent_wf {| SARSALambdaAgent.super := b; SARSALambdaAgent.lambd := lam;
              SARSALambdaAgent.z := zs |}.
Proof. intros [] Hz. by split. Qed.

Lemma agent_wf_super s : agent_wf s -> base_wf (SARSALambdaAgent.super s).
Proof. intros []. by split. Qed.

Section BaseLearn.
Variable hash : list (option Z) -> Z.

Lemma get_q_lower s o a q t :
  SARSALambdaAgent.get_q hash o a s = (Ok q, t) ->
  SARSAAgent.get_q hash o a (SARSALambdaAgent.super s)
  = (Ok q, SARSALambdaAgent.super t).
Proof.
  unfold SARSALambdaAgent.get_q. rewrite zoom_eq.
  destruct (SARSAAgent.get_q hash o a (SARSALambdaAgent.super s)) as [r b1].
  simpl. by intros [= -> <-].
Qed.

Lemma encode_lower s o a feats t :
  SARSALambdaAgent.encode hash o a s = (Ok feats, t) ->
  SARSAAgent.encode hash o a (SARSALambdaAgent.super s)
  = (Ok feats, SARSALambdaAgent.super t).
Proof.
  unfold SARSALambdaAgent.encode. rewrite zoom_eq.
  destruct (SARSAAgent.encode hash o a (SARSALambdaAgent.super s)) as [r b1].
  simpl. by intros [= -> <-].
Qed.

Lemma base_encode_stable o a b feats b1 b2 :
  SARSAAgent.encode hash o a b = (Ok feats, b1) ->
  base_frame b1 b2 ->
  SARSAAgent.encode hash o a b2 = (Ok feats, b2).
Proof.
  intros He [Heq Hext _].
  pose proof (base_encode_frame hash o a b) as [Heq1 _ _]. rewrite He in Heq1.
  simpl in Heq1.
  remember (SARSAAgent.encoder b2) as tc2 eqn:Htc2. clear Htc2.
  remember (SARSAAgent.encoder b1) as tc1 eqn:Htc1.
  rewrite Heq1 in Heq. subst b2. simpl. clear Heq1.
  revert He. unfold SARSAAgent.encode. munfold. simpl.
  destruct (Np.subtract _ _) as [shifted|]; simpl; [|done].
  destruct (Np.divide _ _) as [states|]; simpl; [|done].
  destruct (TileCoder.__call__ hash states [a] (SARSAAgent.encoder b))
    as [[feats'|e] tc1'] eqn:Hcall; simpl; [|done].
  intros [= <- <-]. simpl in *. subst tc1.
  by rewrite (call_stable hash states [a] (SARSAAgent.encoder b) feats' tc1' tc2).
Qed.

(** The plain update when the estimates and the encoding are known. *)
Lemma base_learn_at b o a r o' d a' q_next b1 q feats b2 :
  (d = false -> SARSAAgent.get_q hash o' a' b = (Ok q_next, b1)) ->
  (d = true -> b1 = b) ->
  SARSAAgent.get_q hash o a b1 = (Ok q, b2) ->
  SARSAAgent.encode hash o a b2 = (Ok feats, b2) ->
  Forall (fun i => (0 <= i < Z.of_nat (length (SARSAAgent.w b2)))%Z) feats ->
  SARSAAgent.learn hash o a r o' d a' b =
  (Ok tt,
   SARSAAgent.set_w
     (foldl (fun w k =>
               <[k := (nth k (SARSAAgent.w b2) 0
                       + SARSAAgent.learning_rate b2
                         * ((if d then r else r + SARSAAgent.gamma b * q_next) - q))%Q]>
                 w)
            (SARSAAgent.w b2) (map Z.to_nat feats))
     b2).
Proof.
  intros Hqn Hd Hq He Hall. unfold SARSAAgent.learn. munfold.
  destruct d; cbn [negb]; cbv beta iota.
  - rewrite <- (Hd eq_refl), Hq, He. unfold try_modify. munfold.
    by rewrite iadd_at_in_range.
  - rewrite (Hqn eq_refl), Hq, He. unfold try_modify. munfold.
    by rewrite iadd_at_in_range.
Qed.

(** X10. The plain SARSA update of the base class: on a well-formed
    agent it returns, and it raises by [learning_rate * delta] exactly
    the weights at the indices that encode [(observation, action)], each
    once even when an index occurs twice; every other weight is as
    before. *)
Theorem base_learn_updates_active b o a r o' d a' :
  base_wf b ->
  length o = length (SARSAAgent.obs_low b) ->
  (d = false -> length o' = length (SARSAAgent.obs_low b)) ->
  exists q_next q feats b',
    (d = false -> fst (SARSAAgent.get_q hash o' a' b) = Ok q_next) /\
    fst (SARSAAgent.get_q hash o a
           (if d then b else snd (SARSAAgent.get_q hash o' a' b))) = Ok q /\
    fst (SARSAAgent.encode hash o a
           (if d then b else snd (SARSAAgent.get_q hash o' a' b))) = Ok feats /\
    SARSAAgent.learn hash o a r o' d a' b = (Ok tt, b') /\
    length (SARSAAgent.w b') = length (SARSAAgent.w b) /\
    forall i wi,
      SARSAAgent.w b !! i = Some wi ->
      SARSAAgent.w b' !! i =
      Some (if bool_decide (Z.of_nat i ∈ feats)
            then (wi + SARSAAgent.learning_rate b
                       * ((if d then r else r + SARSAAgent.gamma b * q_next) - q))%Q
            else wi).
Proof.
  intros Hwf Ho Ho'.
  set (s := {| SARSALambdaAgent.super := b; SARSALambdaAgent.lambd := 0%Q;
               SARSALambdaAgent.z := replicate (length (SARSAAgent.w b)) 0%Q |}).
  assert (agent_wf s) as Hs
    by (apply base_wf_lift; [done|by rewrite length_replicate]).
  assert (exists q_next b1 q feats b2,
            (d = false -> SARSAAgent.get_q hash o' a' b = (Ok q_next, b1)) /\
            (d = true -> b1 = b) /\
            SARSAAgent.get_q hash o a b1 = (Ok q, b2) /\
            SARSAAgent.encode hash o a b1 = (Ok feats, b2) /\
            SARSAAgent.w b2 = SARSAAgent.w b /\
            SARSAAgent.learning_rate b2 = SARSAAgent.learning_rate b /\
            Forall (fun i => (0 <= i < Z.of_nat (length (SARSAAgent.w b)))%Z) feats)
    as (q_next & b1 & q & feats & b2 & Hqn & Hd & Hq & He & Hw & Hlr & Hall).
  { destruct d.
    - destruct (learn_done_run hash s o a r o' a' Hs Ho) as (feats & tc' & Hq & _).
      destruct (agent_encoding hash s o a Hs) as (feats' & tc'' & Hc & Hall & _).
      pose proof (get_q_at hash o a s feats' tc'' Ho (wf_obs _ Hs) Hc Hall) as Hq'.
      pose proof (encode_at hash o a s feats' tc'' Ho (wf_obs _ Hs) Hc) as He.
      apply get_q_lower in Hq'. apply encode_lower in He.
      exists 0%Q, b, (q_value (SARSAAgent.w b) feats'), feats',
        (SARSAAgent.set_encoder tc'' b).
      split; [done|]. split; [done|]. split; [exact Hq'|]. split; [exact He|]. done.
    - destruct (learn_run hash s o a r o' a' Hs Ho (Ho' eq_refl))
        as (fn & tc1 & feats & tc2 & Hq1 & He & Hq & Hall & _).
      apply get_q_lower in Hq1. apply get_q_lower in Hq. apply encode_lower in He.
      exists (q_value (SARSAAgent.w b) fn), (SARSAAgent.set_encoder tc1 b),
        (q_value (SARSAAgent.w b) feats), feats, (SARSAAgent.set_encoder tc2 b).
      split; [done|]. split; [done|]. split; [exact Hq|]. split; [exact He|]. done. }
  assert (SARSAAgent.encode hash o a b2 = (Ok feats, b2)) as He2
    by (eapply base_encode_stable; [exact He|apply base_frame_refl]).
  rewrite <- Hw in Hall.
  pose proof (base_learn_at b o a r o' d a' q_next b1 q feats b2 Hqn Hd Hq He2 Hall)
    as Hl.
  exists q_next, q, feats. eexists.
  assert ((if d then b else snd (SARSAAgent.get_q hash o' a' b)) = b1) as ->.
  { destruct d; [by rewrite Hd|by rewrite Hqn]. }
  split; [intros Hdf; by rewrite (Hqn Hdf)|]. split; [by rewrite Hq|].
  split; [by rewrite He|]. split; [exact Hl|].
  change (SARSAAgent.w (SARSAAgent.set_w ?x ?t)) with x.
  rewrite length_foldl_insert_at, Hw. split; [done|].
  intros i wi Hi.
  rewrite (lookup_foldl_insert_at
             (fun k => (nth k (SARSAAgent.w b) 0
                        + SARSAAgent.learning_rate b2
                          * ((if d then r else r + SARSAAgent.gamma b * q_next) - q))%Q)).
  rewrite Hi, Hlr. simpl.
  rewrite (bool_decide_ext _ (Z.of_nat i ∈ feats)).
  - rewrite (nth_lookup_Some _ _ _ _ Hi). by destruct (bool_decide _).
  - apply elem_of_map_to_nat. eapply Forall_impl; [done|]. simpl. lia.
Qed.

(** X11. With [lambd] equal to 0 the update with traces is the plain
    one on every transition that is not terminal: from the same agent
    both return, leave the same coder, and leave the same weights. *)
Theorem lambda_zero_is_plain_sarsa s o a r o' a' :
  agent_wf s -> obs_ok s o -> obs_ok s o' ->
  (SARSALambdaAgent.lambd s == 0)%Q ->
  exists b' s',
    SARSAAgent.learn hash o a r o' false a' (SARSALambdaAgent.super s) = (Ok tt, b') /\
    SARSALambdaAgent.learn hash o a r o' false a' s = (Ok tt, s') /\
    SARSAAgent.encoder b' = SARSALambdaAgent.encoder s' /\
    Forall2 Qeq (SARSALambdaAgent.w s') (SARSAAgent.w b').
Proof.
  intros Hwf Ho Ho' Hlam.
  destruct (learn_run hash s o a r o' a' Hwf Ho Ho')
    as (fn & tc1 & feats & tc2 & Hq1 & He & Hq & Hall & Hl).
  cbv zeta in Hl.
  apply get_q_lower in Hq1. apply get_q_lower in Hq. apply encode_lower in He.
  assert (SARSAAgent.encode hash o a (SARSALambdaAgent.super (with_encoder tc2 s))
          = (Ok feats, SARSALambdaAgent.super (with_encoder tc2 s))) as He2
    by (eapply base_encode_stable; [exact He|apply base_frame_refl]).
  pose proof (base_learn_at (SARSALambdaAgent.super s) o a r o' false a'
                _ _ _ feats _ (fun _ => Hq1) ltac:(done) Hq He2 Hall) as Hb.
  eexists. eexists. split; [exact Hb|]. split; [exact Hl|]. split; [reflexivity|].
  change (SARSALambdaAgent.w (SARSALambdaAgent.set_w ?x ?t)) with x.
  change (SARSAAgent.w (SARSAAgent.set_w ?x ?t)) with x.
  change (SARSAAgent.w (SARSALambdaAgent.super (with_encoder tc2 s)))
    with (SARSALambdaAgent.w s).
  change (SARSAAgent.learning_rate (SARSALambdaAgent.super (with_encoder tc2 s)))
    with (SARSALambdaAgent.learning_rate s).
  change (SARSAAgent.gamma (SARSALambdaAgent.super s)) with (SARSALambdaAgent.gamma s).
  pose proof (wf_z _ Hwf) as Hz.
  apply Forall2_same_length_lookup_2.
  { rewrite length_zip_with, length_foldl_insert, length_foldl_insert_at.
    unfold Np.imul. rewrite length_map. lia. }
  intros i x y. rewrite lookup_zip_with, lookup_foldl_insert, lookup_foldl_insert_at.
  destruct (SARSALambdaAgent.w s !! i) as [wi|] eqn:Hwi; simpl; [|by destruct (bool_decide _)].
  destruct (SARSALambdaAgent.z s !! i) as [zi|] eqn:Hzi.
  2:{ apply lookup_ge_None in Hzi. apply lookup_lt_Some in Hwi. lia. }
  assert (Np.imul (SARSALambdaAgent.z s)
            (SARSALambdaAgent.gamma s * SARSALambdaAgent.lambd s) !! i
          = Some (zi * (SARSALambdaAgent.gamma s * SARSALambdaAgent.lambd s))%Q)
    as ->.
  { unfold Np.imul.
    change (map ?f (SARSALambdaAgent.z s)) with (f <$> SARSALambdaAgent.z s).
    by rewrite list_lookup_fmap, Hzi. }
  rewrite (nth_lookup_Some _ _ _ _ Hwi).
  destruct (bool_decide _); simpl; intros [= <-] [= <-].
  - ring.
  - rewrite Hlam. ring.
Qed.

End BaseLearn.

(** ** play_sarsa *)

Section PlaySarsaFacts.
Variable hash : list (option Z) -> Z.
Context {E : Type}.
Variable env_reset : E -> list Q * E.
Variable env_step : Z -> E -> (list Q * Binary64.float * bool) * E.
Variable rng : nat -> Q * Z.
Abbreviation loop := (Notebook.loop hash E env_step rng).
Abbreviation play_sarsa := (Notebook.play_sarsa hash E env_reset env_step rng).

Lemma world_step_eq a wd :
  Notebook.step E env_step a wd =
  (Ok (env_step a (Notebook.env E wd)).1,
   Notebook.set_env E (env_step a (Notebook.env E wd)).2 wd).
Proof. unfold Notebook.step. by destruct (env_step a (Notebook.env E wd)). Qed.

Lemma world_reset_eq wd :
  Notebook.reset E env_reset wd =
  (Ok (env_reset (Notebook.env E wd)).1,
   Notebook.set_env E (env_reset (Notebook.env E wd)).2 wd).
Proof. unfold Notebook.reset. by destruct (env_reset (Notebook.env E wd)). Qed.

Lemma world_decide_eq o wd :
  Notebook.decide hash E rng o wd =
  (fst (SARSALambdaAgent.decide hash (rng (Notebook.decisions E wd)).1
          (rng (Notebook.decisions E wd)).2 o (Notebook.agent E wd)),
   Notebook.set_agent E
     (snd (SARSALambdaAgent.decide hash (rng (Notebook.decisions E wd)).1
             (rng (Notebook.decisions E wd)).2 o (Notebook.agent E wd)))
     (Notebook.set_decisions E (S (Notebook.decisions E wd)) wd)).
Proof.
  unfold Notebook.decide. destruct (rng (Notebook.decisions E wd)) as [u k].
  by rewrite zoom_eq.
Qed.

Lemma world_learn_eq o a r o' d a' wd :
  Notebook.learn hash E o a r o' d a' wd =
  (fst (SARSALambdaAgent.learn hash o (Some a) r o' d a' (Notebook.agent E wd)),
   Notebook.set_agent E
     (snd (SARSALambdaAgent.learn hash o (Some a) r o' d a' (Notebook.agent E wd)))
     wd).
Proof. unfold Notebook.learn. by rewrite zoom_eq. Qed.

Lemma loop_S fuel train o a acc :
  loop (S fuel) train o a acc =
  (Notebook.step E env_step a ≫= fun r : list Q * Binary64.float * bool =>
   if r.2 then
     (if train then
        Notebook.learn hash E o a (Binary64.to_Q r.1.2) r.1.1 r.2 None
      else (mret tt : M (Notebook.world E) unit));;
     mret (Some (Binary64.add acc r.1.2))
   else
     action_next ← Notebook.decide hash E rng r.1.1;
     (if train then
        Notebook.learn hash E o a (Binary64.to_Q r.1.2) r.1.1 r.2
          (Some action_next)
      else (mret tt : M (Notebook.world E) unit));;
     loop fuel train r.1.1 action_next (Binary64.add acc r.1.2)).
Proof. reflexivity. Qed.

(** Without training the loop only reads the agent. *)
Lemma loop_reads fuel : forall o a acc wd,
  agent_reads (Notebook.agent E wd)
    (Notebook.agent E (snd (loop fuel false o a acc wd))).
Proof.
  induction fuel as [|fuel IH]; intros o a acc wd; [simpl; reflexivity|].
  rewrite loop_S. munfold. rewrite world_step_eq.
  destruct (env_step a (Notebook.env E wd)) as [[[o' r] done] e']. simpl.
  destruct done; simpl; [reflexivity|].
  rewrite world_decide_eq.
  set (wd1 := Notebook.set_env E e' wd).
  pose proof (decide_reads hash (rng (Notebook.decisions E wd1)).1
                (rng (Notebook.decisions E wd1)).2 o' (Notebook.agent E wd1)) as Hd.
  destruct (SARSALambdaAgent.decide hash _ _ o' (Notebook.agent E wd1))
    as [[act|e] s1]; simpl in *; [|done].
  etrans; [exact Hd|]. apply IH.
Qed.

(** X12. Playing an episode without training only reads the agent:
    however the episode goes, the weights, the traces and the
    configuration are as before, and the coder's table is only
    extended. *)
Theorem play_sarsa_without_training fuel render wd :
  agent_reads (Notebook.agent E wd)
    (Notebook.agent E (snd (play_sarsa fuel false render wd))).
Proof.
  unfold Notebook.play_sarsa. munfold. rewrite world_reset_eq. simpl.
  rewrite world_decide_eq.
  set (wd1 := Notebook.set_env E _ wd).
  pose proof (decide_reads hash (rng (Notebook.decisions E wd1)).1
                (rng (Notebook.decisions E wd1)).2 (env_reset (Notebook.env E wd)).1
                (Notebook.agent E wd1)) as Hd.
  destruct (SARSALambdaAgent.decide hash _ _ _ (Notebook.agent E wd1))
    as [[act|e] s1]; simpl in *; [|done].
  etrans; [exact Hd|]. apply loop_reads.
Qed.

(** A terminal [learn] that returns leaves no trace. *)
Lemma learn_done_zeroes o a r o' a' s s' :
  SARSALambdaAgent.learn hash o a r o' true a' s = (Ok tt, s') ->
  Forall (fun x => x = 0%Q) (SARSALambdaAgent.z s').
Proof.
  unfold SARSALambdaAgent.learn. munfold. cbn [negb]. cbv beta iota.
  destruct (SARSALambdaAgent.get_q hash o a s) as [[q|e] s1]; [|done].
  unfold try_modify. munfold.
  destruct (Np.iadd _ _) as [w'|e]; [|done]. simpl.
  intros [= <-]. simpl. unfold Np.zeros_like. by apply Forall_replicate.
Qed.

(** The loop in an environment with limited episodes: whatever the
    calls on the agent do, it does not outlast the limit, and it leaves
    the agent in order when it returns. *)
Lemma loop_ends train limit fuel : forall wd o a acc,
  agent_wf (Notebook.agent E wd) ->
  env_limited env_step limit ->
  (limit (Notebook.env E wd) < fuel)%nat ->
  fst (loop fuel train o a acc wd) <> Ok None /\
  forall total wd',
    loop fuel train o a acc wd = (Ok (Some total), wd') ->
    agent_wf (Notebook.agent E wd') /\
    agent_keeps (Notebook.agent E wd) (Notebook.agent E wd') /\
    (train = true ->
     Forall (fun x => x = 0%Q) (SARSALambdaAgent.z (Notebook.agent E wd'))).
Proof.
  induction fuel as [|fuel IH]; intros wd o a acc Hwf Hlim Hfuel; [lia|].
  rewrite loop_S. munfold. rewrite world_step_eq.
  pose proof (Hlim a (Notebook.env E wd)) as Hdec.
  destruct (env_step a (Notebook.env E wd)) as [[[o' r] done] e'] eqn:Hstep.
  simpl in Hdec. cbn [fst snd].
  set (wd1 := Notebook.set_env E e' wd).
  destruct done.
  - (* the episode ends here *)
    destruct train.
    + rewrite world_learn_eq.
      pose proof (learn_step hash o (Some a) (Binary64.to_Q r) o' true None
                    (Notebook.agent E wd1)) as Hs.
      pose proof (learn_keeps hash o (Some a) (Binary64.to_Q r) o' true None
                    (Notebook.agent E wd1)) as Hk.
      pose proof (learn_done_zeroes o (Some a) (Binary64.to_Q r) o' None
                    (Notebook.agent E wd1)) as Hz.
      destruct (SARSALambdaAgent.learn hash o (Some a) (Binary64.to_Q r) o' true None
                  (Notebook.agent E wd1)) as [[[]|e] s'];
        cbn [fst snd] in *; [|by split].
      split; [done|]. intros total wd' [= <- <-]. cbn [Notebook.agent Notebook.set_agent].
      split; [by apply Hs|]. split; [exact Hk|]. intros _. by eapply Hz.
    + cbn [fst snd]. split; [done|]. intros total wd' [= <- <-].
      split; [done|]. split; [reflexivity|done].
  - (* one more decision *)
    specialize (Hdec eq_refl).
    rewrite world_decide_eq.
    pose proof (decide_step hash (rng (Notebook.decisions E wd1)).1
                  (rng (Notebook.decisions E wd1)).2 o' (Notebook.agent E wd1)) as Hs1.
    pose proof (decide_reads hash (rng (Notebook.decisions E wd1)).1
                  (rng (Notebook.decisions E wd1)).2 o' (Notebook.agent E wd1)) as Hk1.
    apply agent_reads_keeps in Hk1.
    destruct (SARSALambdaAgent.decide hash _ _ o' (Notebook.agent E wd1))
      as [[act|e] s1]; cbn [fst snd] in *; [|by split].
    set (wd2 := Notebook.set_agent E s1 _).
    assert (agent_wf s1) as Hwf1 by (by apply Hs1).
    destruct train.
    + rewrite world_learn_eq. change (Notebook.agent E wd2) with s1.
      pose proof (learn_step hash o (Some a) (Binary64.to_Q r) o' false (Some act) s1)
        as Hs.
      pose proof (learn_keeps hash o (Some a) (Binary64.to_Q r) o' false (Some act) s1)
        as Hk.
      destruct (SARSALambdaAgent.learn hash o (Some a) (Binary64.to_Q r) o' false
                  (Some act) s1) as [[[]|e] s2]; cbn [fst snd] in *; [|by split].
      destruct (IH (Notebook.set_agent E s2 wd2) o' act (Binary64.add acc r))
        as [Hnone Hpost]; [by apply Hs | done | simpl; lia |].
      split; [done|]. intros total wd' Hloop.
      destruct (Hpost total wd' Hloop) as (Hwf' & Hk' & Hz').
      split; [done|]. split; [|done].
      etrans; [exact Hk1|]. etrans; [exact Hk|exact Hk'].
    + destruct (IH wd2 o' act (Binary64.add acc r))
        as [Hnone Hpost]; [done | done | simpl; lia |].
      split; [done|]. intros total wd' Hloop.
      destruct (Hpost total wd' Hloop) as (Hwf' & Hk' & Hz').
      split; [done|]. split; [|done].
      etrans; [exact Hk1|exact Hk'].
Qed.

(** X13. In an environment whose episodes are limited, every episode
    on a well-formed agent ends: once the loop may run one step more than
    the limit, [play_sarsa] is not cut off, it has returned a total or
    raised.  When it returns, the agent is well formed, its
    configuration is as before and, if it was trained, all its traces
    are zero. *)
Theorem play_sarsa_ends limit fuel train render wd :
  agent_wf (Notebook.agent E wd) ->
  env_limited env_step limit ->
  (limit (env_reset (Notebook.env E wd)).2 < fuel)%nat ->
  fst (play_sarsa fuel train render wd) <> Ok None /\
  forall total wd',
    play_sarsa fuel train render wd = (Ok (Some total), wd') ->
    agent_wf (Notebook.agent E wd') /\
    agent_keeps (Notebook.agent E wd) (Notebook.agent E wd') /\
    (train = true ->
     Forall (fun x => x = 0%Q) (SARSALambdaAgent.z (Notebook.agent E wd'))).
Proof.
  intros Hwf Hlim Hfuel.
  unfold Notebook.play_sarsa. munfold. rewrite world_reset_eq. cbn [fst snd].
  set (wd1 := Notebook.set_env E _ wd).
  rewrite world_decide_eq.
  pose proof (decide_step hash (rng (Notebook.decisions E wd1)).1
                (rng (Notebook.decisions E wd1)).2 (env_reset (Notebook.env E wd)).1
                (Notebook.agent E wd1)) as Hs1.
  pose proof (decide_reads hash (rng (Notebook.decisions E wd1)).1
                (rng (Notebook.decisions E wd1)).2 (env_reset (Notebook.env E wd)).1
                (Notebook.agent E wd1)) as Hk1.
  apply agent_reads_keeps in Hk1.
  destruct (SARSALambdaAgent.decide hash _ _ _ (Notebook.agent E wd1))
    as [[act|e] s1]; cbn [fst snd] in *; [|by split].
  destruct (loop_ends train limit fuel
              (Notebook.set_agent E s1
                 (Notebook.set_decisions E (S (Notebook.decisions E wd1)) wd1))
              (env_reset (Notebook.env E wd)).1 act (Binary64.of_Z 0))
    as [Hnone Hpost]; [by apply Hs1 | done | done |].
  split; [done|]. intros total wd' Hloop.
  destruct (Hpost total wd' Hloop) as (Hwf' & Hk' & Hz').
  split; [done|]. split; [by etrans|done].
Qed.

End PlaySarsaFacts.

(** ** The further properties at work on the samples *)

(** X1 on the sample coder: the encoding that filled it, asked again after
    another one. *)
Lemma call_repeatable_witness :
  TileCoder.__call__ sample_hash [0%Q] [Some 0%Z] (TileCoder.__init__ 2 1)
  = (Ok [0%Z; 0%Z], sample_full_coder) /\
  tc_steps sample_hash sample_full_coder
    (snd (TileCoder.__call__ sample_hash [(99 # 100)%Q] [Some 0%Z] sample_full_coder)) /\
  fst (TileCoder.__call__ sample_hash [0%Q] [Some 0%Z]
         (snd (TileCoder.__call__ sample_hash [(99 # 100)%Q] [Some 0%Z]
                 sample_full_coder)))
  = Ok [0%Z; 0%Z].
Proof.
  assert (TileCoder.__call__ sample_hash [0%Q] [Some 0%Z] (TileCoder.__init__ 2 1)
          = (Ok [0%Z; 0%Z], sample_full_coder)) as H1 by (vm_compute; reflexivity).
  assert (tc_steps sample_hash sample_full_coder
            (snd (TileCoder.__call__ sample_hash [(99 # 100)%Q] [Some 0%Z]
                    sample_full_coder))) as H2
    by (apply tc_steps_call, tc_steps_refl).
  split; [exact H1|]. split; [exact H2|].
  by rewrite (call_repeatable sample_hash _ _ _ _ _ _ H1 H2).
Defined.

(** X2 on the empty sample table, which has room for both layers. *)
Lemma call_indices_distinct_witness :
  tc_inv (TileCoder.__init__ 2 10) /\
  (tc_size (TileCoder.__init__ 2 10) + TileCoder.layers (TileCoder.__init__ 2 10)
   <= TileCoder.features (TileCoder.__init__ 2 10))%Z /\
  exists feats,
    fst (TileCoder.__call__ sample_hash sample_obs [Some 1%Z] (TileCoder.__init__ 2 10))
    = Ok feats /\ NoDup feats.
Proof.
  assert (tc_inv (TileCoder.__init__ 2 10)) as Hinv by (apply tc_init_inv; lia).
  assert (tc_size (TileCoder.__init__ 2 10) + TileCoder.layers (TileCoder.__init__ 2 10)
          <= TileCoder.features (TileCoder.__init__ 2 10))%Z as Hroom
    by (vm_compute; discriminate).
  split; [exact Hinv|]. split; [exact Hroom|].
  exact (call_indices_distinct sample_hash sample_obs [Some 1%Z] _ Hinv Hroom).
Defined.


(** X9 on 1e308, which [layers] squared takes beyond the largest float,
    and on [nan]. *)
Lemma call64_fails_on_overflow_witness :
  (1 <= 8)%Z /\ (0 <= 2)%Z /\ tc_reachable sample_hash 2 8 (TileCoder.__init__ 2 8) /\
  TileCoder64.__call__ sample_hash [S754_finite false 5010420900022432 971] [Some 0%Z]
    (TileCoder.__init__ 2 8) = (Raise OverflowError, TileCoder.__init__ 2 8) /\
  TileCoder64.__call__ sample_hash [S754_nan] [Some 0%Z] (TileCoder.__init__ 2 8)
  = (Raise ValueError, TileCoder.__init__ 2 8) /\
  tc_ext (TileCoder.__init__ 2 8)
    (snd (TileCoder64.__call__ sample_hash [S754_nan] [Some 0%Z] (TileCoder.__init__ 2 8))).
Proof.
  split; [lia|]. split; [lia|]. split; [constructor|].
  split; [by vm_compute|]. split; [by vm_compute|].
  apply (call64_fails_on_overflow sample_hash 2 8 (TileCoder.__init__ 2 8) [S754_nan]
           [Some 0%Z]); [lia|lia|constructor].
Defined.

(** X14 on an empty table with room: the float just below five ninths
    gets the indices 0, 1 and 2. *)
Lemma call64_indices_witness :
  (1 <= 8)%Z /\ tc_reachable sample_hash 3 8 (TileCoder.__init__ 3 8) /\
  exists tc',
    TileCoder64.__call__ sample_hash [sample_float_ninths] [Some 1%Z]
      (TileCoder.__init__ 3 8) = (Ok [0; 1; 2]%Z, tc') /\
    NoDup [0; 1; 2]%Z /\
    TileCoder64.__call__ sample_hash [sample_float_ninths] [Some 1%Z] tc'
    = (Ok [0; 1; 2]%Z, tc').
Proof.
  split; [lia|]. split; [constructor|].
  destruct (TileCoder64.__call__ sample_hash [sample_float_ninths] [Some 1%Z]
              (TileCoder.__init__ 3 8)) as [r tc'] eqn:Hcall.
  assert (r = Ok [0; 1; 2]%Z) as ->.
  { apply (f_equal fst) in Hcall. vm_compute in Hcall. congruence. }
  exists tc'. split; [reflexivity|].
  destruct (call64_indices sample_hash 3 8 (TileCoder.__init__ 3 8) [sample_float_ninths]
              [Some 1%Z] [0; 1; 2]%Z tc' ltac:(lia) ltac:(constructor) Hcall)
    as (_ & _ & Hnd & Hrep).
  split; [apply Hnd; by vm_compute|]. apply Hrep. constructor.
Defined.

(** X6 on the sample agent without actions. *)
Lemma decide_without_actions_witness :
  (SARSALambdaAgent.action_n sample_agent_no_actions <= 0)%Z /\
  SARSALambdaAgent.decide sample_hash (1 # 2) 0 sample_obs sample_agent_no_actions
  = (Raise ValueError, sample_agent_no_actions).
Proof.
  assert (SARSALambdaAgent.action_n sample_agent_no_actions <= 0)%Z as H
    by (vm_compute; discriminate).
  split; [exact H|].
  exact (decide_without_actions sample_hash (1 # 2) 0 sample_obs _ H).
Defined.

(** X7 on the sample agent with an observation of three components. *)
Lemma wrong_shape_raises_witness :
  length [0%Q; 0%Q; 0%Q]
  <> length (SARSAAgent.obs_low (SARSALambdaAgent.super sample_agent)) /\
  SARSALambdaAgent.get_q sample_hash [0%Q; 0%Q; 0%Q] (Some 1%Z) sample_agent
  = (Raise ValueError, sample_agent).
Proof.
  assert (length [0%Q; 0%Q; 0%Q]
          <> length (SARSAAgent.obs_low (SARSALambdaAgent.super sample_agent))) as H
    by (simpl; lia).
  split; [exact H|].
  apply (wrong_shape_raises sample_hash [0%Q; 0%Q; 0%Q] (Some 1%Z) 0%Q sample_obs
           (Some 1%Z) sample_agent H); simpl; lia.
Defined.

(** X8 on the new sample agent with [epsilon = 0]. *)
Lemma decide_on_zero_weights_witness :
  agent_wf (SARSALambdaAgent.set_epsilon 0 sample_agent) /\
  obs_ok (SARSALambdaAgent.set_epsilon 0 sample_agent) sample_obs /\
  (0 <= 1 # 2)%Q /\
  Forall (fun x => x == 0)%Q
    (SARSALambdaAgent.w (SARSALambdaAgent.set_epsilon 0 sample_agent)) /\
  fst (SARSALambdaAgent.decide sample_hash (1 # 2) 7 sample_obs
         (SARSALambdaAgent.set_epsilon 0 sample_agent)) = Ok 0%Z.
Proof.
  assert (agent_wf (SARSALambdaAgent.set_epsilon 0 sample_agent)) as Hwf
    by (apply (agent_step_set_epsilon sample_agent 0), sample_agent_wf).
  assert (0 <= 1 # 2)%Q as Hu by (vm_compute; discriminate).
  assert (Forall (fun x => x == 0)%Q
            (SARSALambdaAgent.w (SARSALambdaAgent.set_epsilon 0 sample_agent))) as Hw
    by (repeat constructor).
  split; [exact Hwf|]. split; [reflexivity|]. split; [exact Hu|]. split; [exact Hw|].
  exact (decide_on_zero_weights sample_hash _ (1 # 2) 7 sample_obs Hwf eq_refl
           eq_refl (Qeq_refl 0) Hu Hw).
Defined.

(** X10 on the base part of the sample agent. *)
Lemma base_learn_updates_active_witness :
  base_wf (SARSALambdaAgent.super sample_agent) /\
  exists b',
    SARSAAgent.learn sample_hash sample_obs (Some 1%Z) (-1)%Q sample_obs_next false
      (Some 2%Z) (SARSALambdaAgent.super sample_agent) = (Ok tt, b') /\
    length (SARSAAgent.w b') = 10%nat.
Proof.
  assert (base_wf (SARSALambdaAgent.super sample_agent)) as Hwf
    by (apply agent_wf_super, sample_agent_wf).
  split; [exact Hwf|].
  destruct (base_learn_updates_active sample_hash _ sample_obs (Some 1%Z) (-1)%Q
              sample_obs_next false (Some 2%Z) Hwf eq_refl (fun _ => eq_refl))
    as (q_next & q & feats & b' & _ & _ & _ & Hl & Hlen & _).
  exists b'. split; [exact Hl|exact Hlen].
Defined.

(** X11 on the sample agent with [lambd = 0]. *)
Lemma lambda_zero_is_plain_sarsa_witness :
  agent_wf sample_agent_plain /\ (SARSALambdaAgent.lambd sample_agent_plain == 0)%Q /\
  exists b' s',
    SARSAAgent.learn sample_hash sample_obs (Some 1%Z) (-1)%Q sample_obs_next false
      (Some 2%Z) (SARSALambdaAgent.super sample_agent_plain) = (Ok tt, b') /\
    SARSALambdaAgent.learn sample_hash sample_obs (Some 1%Z) (-1)%Q sample_obs_next
      false (Some 2%Z) sample_agent_plain = (Ok tt, s') /\
    Forall2 Qeq (SARSALambdaAgent.w s') (SARSAAgent.w b').
Proof.
  assert (agent_wf sample_agent_plain) as Hwf
    by (apply base_wf_lift; [apply agent_wf_super, sample_agent_wf|reflexivity]).
  split; [exact Hwf|]. split; [reflexivity|].
  destruct (lambda_zero_is_plain_sarsa sample_hash sample_agent_plain sample_obs
              (Some 1%Z) (-1)%Q sample_obs_next (Some 2%Z) Hwf eq_refl eq_refl
              (Qeq_refl 0)) as (b' & s' & Hb & Hs & _ & Hw).
  exists b', s'. split; [exact Hb|]. split; [exact Hs|exact Hw].
Defined.

Lemma sample_env_limited : env_limited sample_step (fun e => e).
Proof.
  intros a e. unfold sample_step. simpl. case_bool_decide; [done|]. lia.
Qed.

(** X13 on the sample world: a trained episode of three steps, each at
    a reward of -1, returns -3. *)
Lemma play_sarsa_ends_witness :
  agent_wf (Notebook.agent nat sample_world) /\
  env_limited sample_step (fun e => e) /\
  fst (Notebook.play_sarsa sample_hash nat sample_reset sample_step sample_rng 10 true
         false sample_world) <> Ok None /\
  fst (Notebook.play_sarsa sample_hash nat sample_reset sample_step sample_rng 10 true
         false sample_world) = Ok (Some (S754_finite true 6755399441055744 (-51))).
Proof.
  split; [exact sample_agent_wf|]. split; [exact sample_env_limited|].
  split; [|by vm_compute].
  apply (play_sarsa_ends sample_hash sample_reset sample_step sample_rng
           (fun e => e) 10 true false sample_world sample_agent_wf
           sample_env_limited ltac:(simpl; lia)).
Defined.
